(** * Vision-Y YOLOv8 detection service: a shallow embedding

    This development embeds [src/components/ml/YOLOv8Service.py] and proves
    properties of its request pipeline: image decoding, the confidence floor
    handed to the model, class remapping and filtering, bounding-box
    normalisation, and the HTTP handlers built on them.

    Modelling conventions.
    - A float is modelled by the rational it stands for ([Q]); equality of
      numbers is [Qeq] ([==]).  NaN and infinities are outside the model.
    - Rounding to float32 is the function [float32] (round to nearest, ties
      to even, with subnormals).  The comparison of a confidence with a
      threshold is made on float32 values, as numpy 2 makes it ([np_less]).
      The arithmetic of the normaliser is exact in [normalize_bbox], which
      the pipeline carries, and rounded after every operation in
      [normalize_bbox_rounded].
    - Python dictionaries are finite maps ([gmap]); lists are lists.
    - Exceptions are values of [Exception]; a computation that may raise
      returns in [Exception + A].
    - The configuration read from the process environment and the
      third-party functions the service calls (base64, PIL, numpy, the
      event loop clock) are the fields of the class [Environment]; the
      loaded network is a value of [YOLO].
    - Logging is not modelled. *)

From Stdlib Require Import QArith Lqa Qround Qpower Ascii String.
From stdpp Require Import gmap strings list fin_maps pretty.

Open Scope Z_scope.

(** * Part I: the embedding *)

(** ** Numbers *)

(** [a < b] on floats, as a boolean. *)
Definition Qltb (a b : Q) : bool := negb (Qle_bool b a).

#[global] Instance Qlt_dec (a b : Q) : Decision (a < b)%Q.
Proof.
  destruct (Qlt_le_dec a b) as [Hlt | Hge]; [left; exact Hlt | right].
  apply Qle_not_lt, Hge.
Defined.

(** ** float32 *)

(** Round half to even, to an integer. *)
Definition rne (q : Q) : Z :=
  let f := Qfloor q in
  let r := (q - inject_Z f)%Q in
  if Qltb r (1 # 2) then f
  else if Qltb (1 # 2) r then f + 1
  else if Z.even f then f else f + 1.

(** The binade of a positive rational: the [e] with [2^e <= q < 2^(e+1)]. *)
Definition ilog2 (q : Q) : Z :=
  let e := Z.log2 (Qnum q) - Z.log2 (Zpos (Qden q)) in
  if Qle_bool (2 ^ e) q then e else e - 1.

(** The exponent float32 gives a magnitude: its binade, and [-126] for the
    subnormal numbers. *)
Definition float32_exp (a : Q) : Z := Z.max (ilog2 a) (-126).

(** The distance between neighbouring float32 values around [a]: 24
    significant bits. *)
Definition float32_ulp (a : Q) : Q := (2 ^ (float32_exp a - 23))%Q.

(** The float32 nearest to a magnitude [a >= 0]. *)
Definition float32_abs (a : Q) : Q :=
  (inject_Z (rne (a / float32_ulp a)) * float32_ulp a)%Q.

(** [np.float32(q)]: the float32 nearest to [q], ties to even.  A value
    beyond the float32 range is rounded with the exponent it has, which
    keeps its order against every float32. *)
Definition float32 (q : Q) : Q :=
  if Qltb q 0 then (- float32_abs (- q))%Q else float32_abs q.

(** [a < b] for a numpy float32 scalar [a] and a Python float [b]: numpy 2
    casts the Python float to float32 and compares float32 values.  [a]
    stands for a float32, on which [float32] is the identity. *)
Definition np_less (a b : Q) : bool := Qltb (float32 a) (float32 b).

(** ** Exceptions *)

(** [HTTPException] is FastAPI's; every other exception (raised by library
    code, or [IndexError] and the like) is an [Error] with its message. *)
Inductive Exception : Type :=
| HTTPException (status_code : Z) (detail : string)
| Error (message : string).

(** A computation that may raise. *)
Definition Result (A : Type) : Type := Exception + A.

Definition try_bind {A B} (r : Result A) (k : A -> Result B) : Result B :=
  match r with
  | inl e => inl e
  | inr a => k a
  end.

(** The exception a computation raised, if it raised one. *)
Definition error_of {A} (r : Result A) : option Exception :=
  match r with
  | inl e => Some e
  | inr _ => None
  end.

Notation "'try!' a ':=' r 'in' k" := (try_bind r (fun a => k))
  (at level 10, a name, k at level 200).

(** ** Data model (the pydantic models of the service) *)

Record BoundingBox := mkBoundingBox {
  x : Q;
  y : Q;
  width : Q;
  height : Q
}.

Record Detection := mkDetection {
  class_name : string;
  confidence : Q;
  bbox : BoundingBox
}.

Record DetectionRequest := mkDetectionRequest {
  image_data : option string;
  image_url : option string;
  classes : list string;
  thresholds : gmap string Q;
  nms_iou : Q
}.

(** [model_info] is a dictionary with these three keys. *)
Record ModelInfo := mkModelInfo {
  model_name : string;
  device : string;
  num_classes : nat
}.

Record DetectionResponse := mkDetectionResponse {
  detections : list Detection;
  processing_time_ms : Q;
  image_size : Z * Z;
  model_info : ModelInfo
}.

Record HealthResponse := mkHealthResponse {
  status : string;
  model_loaded : bool;
  health_device : string;
  timestamp : Z
}.

(** ** What the model returns *)

(** A row of [boxes.xyxy]: pixel-space corners [(x1, y1, x2, y2)]. *)
Definition xyxy_row : Type := Q * Q * Q * Q.

(** [result.boxes]: three parallel arrays.  [cls] holds the class ids as
    they are after [.astype(int)]. *)
Record Boxes := mkBoxes {
  xyxy : list xyxy_row;
  conf : list Q;
  cls : list Z
}.

Record Results := mkResults {
  boxes : option Boxes
}.

(** A decoded image: [shape] is [(height, width, channels)]. *)
Record ndarray := mkNdarray {
  shape : Z * Z * Z;
  pixels : list Z
}.

(** The loaded network, called as [model(img, conf=.., iou=..)]. *)
Record YOLO := mkYOLO {
  predict : ndarray -> Q -> Q -> Result (list Results)
}.

(** ** The environment of the process

    Configuration read from the environment at import time, and the
    library functions the service calls. *)
Class Environment := {
  CONFIDENCE_THRESHOLD : Q;
  DEVICE : string;
  (** [str(e)] of an [HTTPException] *)
  str_HTTPException : Z -> string -> string;
  b64decode : string -> Result (list Byte.byte);
  b64encode : list Byte.byte -> string;
  PILImage : Type;
  Image_open : list Byte.byte -> Result PILImage;
  mode : PILImage -> string;
  convert : PILImage -> string -> Result PILImage;
  np_array : PILImage -> Result ndarray;
  (** the [k]-th reading of the event loop's clock *)
  loop_time : nat -> Q
}.

(** Class mapping from YOLO classes to Vision-Y classes. *)
Definition YOLO_TO_VY_CLASSES : gmap Z string :=
  list_to_map
    [ (0, "person"); (1, "bicycle"); (2, "car"); (3, "motorcycle");
      (5, "truck"); (7, "truck");
      (14, "animal"); (15, "animal"); (16, "animal"); (17, "animal") ].

(** ** Strings *)

(** [s.split(sep)] for a one-character separator. *)
Fixpoint split (sep : Ascii.ascii) (s : string) : list string :=
  match s with
  | EmptyString => [EmptyString]
  | String c rest =>
      if Ascii.eqb c sep then EmptyString :: split sep rest
      else match split sep rest with
           | [] => [String c EmptyString]
           | hd :: tl => String c hd :: tl
           end
  end.

(** [s.startswith(p)] *)
Definition startswith (s p : string) : bool := String.prefix p s.

Definition comma : Ascii.ascii := ","%char.

(** ** The world a handler runs in

    The event loop's clock is read by position; every call of the model is
    recorded with the arguments it was given. *)

Record Invocation := mkInvocation {
  inv_image : ndarray;
  inv_conf : Q;
  inv_iou : Q
}.

Record World := mkWorld {
  clock_reads : nat;
  invocations : list Invocation
}.

(** A handler: it may raise, and it changes the world. *)
Definition Handler (A : Type) : Type := World -> Result A * World.

Definition ret {A} (a : A) : Handler A := fun w => (inr a, w).

Definition raise {A} (e : Exception) : Handler A := fun w => (inl e, w).

Definition bind {A B} (m : Handler A) (k : A -> Handler B) : Handler B :=
  fun w =>
    match m w with
    | (inl e, w') => (inl e, w')
    | (inr a, w') => k a w'
    end.

(** [try: m except Exception as e: h e] *)
Definition try_except {A} (m : Handler A) (h : Exception -> Handler A) : Handler A :=
  fun w =>
    match m w with
    | (inl e, w') => h e w'
    | (inr a, w') => (inr a, w')
    end.

Definition lift {A} (r : Result A) : Handler A := fun w => (r, w).

Notation "'do!' a ':=' m 'in' k" := (bind m (fun a => k))
  (at level 10, a name, k at level 200).

Section Service.
Context {env : Environment}.

(** [asyncio.get_event_loop().time()] *)
Definition get_time : Handler Q :=
  fun w => (inr (loop_time (clock_reads w)),
            {| clock_reads := S (clock_reads w); invocations := invocations w |}).

(** [model(img_array, conf=c, iou=i, verbose=False)] *)
Definition call_model (m : YOLO) (img : ndarray) (c i : Q) : Handler (list Results) :=
  fun w => (predict m img c i,
            {| clock_reads := clock_reads w;
               invocations := invocations w ++ [mkInvocation img c i] |}).

(** [str(e)], as an f-string renders [{e}]. *)
Definition str (e : Exception) : string :=
  match e with
  | HTTPException c d => str_HTTPException c d
  | Error msg => msg
  end.

(** *** decode_image *)

(** The string handed to [base64.b64decode]: the data-URL prefix is removed
    when present.  [split(",")[1]] raises [IndexError] without a comma. *)
Definition payload_of (image_data : string) : Result string :=
  if startswith image_data "data:image" then
    match split comma image_data !! 1%nat with
    | Some p => inr p
    | None => inl (Error "list index out of range")
    end
  else inr image_data.

Definition decode_image (image_data : string) : Result ndarray :=
  match
    (try! image_data := payload_of image_data in
     try! image_bytes := b64decode image_data in
     try! image := Image_open image_bytes in
     try! image := (if String.eqb (mode image) "RGB" then inr image
                    else convert image "RGB") in
     np_array image)
  with
  | inr a => inr a
  | inl e => inl (HTTPException 400 ("Invalid image data: " +:+ str e))
  end.

(** *** normalize_bbox *)

Definition normalize_bbox (box : xyxy_row) (img_width img_height : Z) : BoundingBox :=
  let '(x1, y1, x2, y2) := box in
  {| x := x1 / inject_Z img_width;
     y := y1 / inject_Z img_height;
     width := (x2 - x1) / inject_Z img_width;
     height := (y2 - y1) / inject_Z img_height |}.

(** The same with the result of every operation rounded by [rnd], as
    floating-point arithmetic does: the subtraction, then the division. *)
Definition normalize_bbox_rounded (rnd : Q -> Q) (box : xyxy_row)
    (img_width img_height : Z) : BoundingBox :=
  let '(x1, y1, x2, y2) := box in
  {| x := rnd (x1 / inject_Z img_width)%Q;
     y := rnd (y1 / inject_Z img_height)%Q;
     width := rnd (rnd (x2 - x1)%Q / inject_Z img_width)%Q;
     height := rnd (rnd (y2 - y1)%Q / inject_Z img_height)%Q |}.

(** *** filter_detections *)

(** The body of the inner loop: [detections] is the list built so far,
    returned unchanged where the source says [continue]. *)
Definition filter_step (classes : list string) (thresholds : gmap string Q)
    (img_width img_height : Z)
    (detections : list Detection) (row : xyxy_row * Q * Z) : list Detection :=
  let '(box, conf, class_id) := row in
  match YOLO_TO_VY_CLASSES !! class_id with
  | None => detections
  | Some vy_class =>
      if String.eqb vy_class EmptyString then detections
      else if negb (bool_decide (classes = [])) && negb (bool_decide (vy_class ∈ classes))
      then detections
      else
        let threshold := default CONFIDENCE_THRESHOLD (thresholds !! vy_class) in
        if np_less conf threshold then detections
        else detections ++
               [ {| class_name := vy_class;
                    confidence := conf;
                    bbox := normalize_bbox box img_width img_height |} ]
  end.

Definition filter_detections (results : list Results) (classes : list string)
    (thresholds : gmap string Q) (img_width img_height : Z) : list Detection :=
  fold_left
    (fun detections result =>
       match boxes result with
       | None => detections
       | Some b =>
           fold_left (filter_step classes thresholds img_width img_height)
                     (zip (zip (xyxy b) (conf b)) (cls b)) detections
       end)
    results [].

(** *** detect_objects *)

(** Python's [min] over a non-empty sequence: the running best is replaced
    by a later item only when that item is strictly smaller. *)
Fixpoint min_from (best : Q) (vs : list Q) : Q :=
  match vs with
  | [] => best
  | v :: vs => min_from (if Qltb v best then v else best) vs
  end.

(** [min(request.thresholds.values()) if request.thresholds else
    CONFIDENCE_THRESHOLD].  A dictionary is truthy exactly when it has a
    value, so [min] never sees an empty sequence. *)
Definition conf_floor (request : DetectionRequest) : Q :=
  match (map_to_list (thresholds request)).*2 with
  | [] => CONFIDENCE_THRESHOLD
  | v :: vs => min_from v vs
  end.

(** The [if request.image_data: .. elif request.image_url: .. else: ..]
    block; [None] and the empty string are both falsy. *)
Definition get_image (request : DetectionRequest) : Result ndarray :=
  match image_data request with
  | Some (String c s) => decode_image (String c s)
  | _ =>
      match image_url request with
      | Some (String _ _) => inl (HTTPException 400 "Image URL not supported yet")
      | _ => inl (HTTPException 400 "Either image_data or image_url required")
      end
  end.

Definition detect_objects (model : option YOLO) (request : DetectionRequest)
    : Handler DetectionResponse :=
  match model with
  | None => raise (HTTPException 503 "Model not loaded")
  | Some m =>
      do! start_time := get_time in
      try_except
        (do! img_array := lift (get_image request) in
         let '(img_height, img_width, _) := shape img_array in
         do! results := call_model m img_array (conf_floor request) (nms_iou request) in
         let detections :=
           filter_detections results (classes request) (thresholds request)
                             img_width img_height in
         do! end_time := get_time in
         ret {| detections := detections;
                processing_time_ms := (end_time - start_time) * 1000;
                image_size := (img_width, img_height);
                model_info := {| model_name := "YOLOv8";
                                 device := DEVICE;
                                 num_classes := size YOLO_TO_VY_CLASSES |} |})
        (fun e => raise (HTTPException 500 ("Detection failed: " +:+ str e)))
  end.

(** *** health_check *)

(** [o is not None] *)
Definition is_not_None {A} (o : option A) : bool :=
  match o with
  | Some _ => true
  | None => false
  end.

(** [now] is the reading of [datetime.now()]. *)
Definition health_check (model : option YOLO) (now : Z) : HealthResponse :=
  {| status := if is_not_None model then "healthy" else "unhealthy";
     model_loaded := is_not_None model;
     health_device := DEVICE;
     timestamp := now |}.

(** *** batch_validate *)

(** An uploaded file: its name and what [await file.read()] gives. *)
Record UploadFile := mkUploadFile {
  filename : string;
  read : Result (list Byte.byte)
}.

(** The two shapes of a result dictionary. *)
Inductive BatchEntry : Type :=
| Processed (name : string) (n_detections : nat) (time_ms : Q)
| Failed (name : string) (error : string).

Definition success (e : BatchEntry) : bool :=
  match e with
  | Processed _ _ _ => true
  | Failed _ _ => false
  end.

Definition entry_filename (e : BatchEntry) : string :=
  match e with
  | Processed name _ _ => name
  | Failed name _ => name
  end.

(** One turn of the loop over [files]. *)
Definition batch_step (model : option YOLO) (results : list BatchEntry)
    (file : UploadFile) : Handler (list BatchEntry) :=
  try_except
    (do! content := lift (read file) in
     let image_data := b64encode content in
     let request := {| image_data := Some image_data;
                       image_url := None;
                       classes := [];
                       thresholds := ∅;
                       nms_iou := 45 # 100 |} in
     do! result := detect_objects model request in
     ret (results ++ [Processed (filename file)
                                (length (detections result))
                                (processing_time_ms result)]))
    (fun e => ret (results ++ [Failed (filename file) (str e)])).

Fixpoint batch_loop (model : option YOLO) (files : list UploadFile)
    (results : list BatchEntry) : Handler (list BatchEntry) :=
  match files with
  | [] => ret results
  | file :: rest =>
      do! results := batch_step model results file in
      batch_loop model rest results
  end.

Definition batch_validate (model : option YOLO) (files : list UploadFile)
    : Handler (list BatchEntry) :=
  batch_loop model files [].

End Service.

(** ** The specification's vocabulary

    These definitions follow the words of the specification; Part II
    compares them with the code above. *)

Section Specification.
Context {env : Environment}.

(** A raw detection: box, confidence, native class id. *)
Definition RawDetection : Type := xyxy_row * Q * Z.

(** The raw detections in the order the invoker produced them. *)
Definition raw_detections (results : list Results) : list RawDetection :=
  results ≫= (fun result =>
    match boxes result with
    | None => []
    | Some b => zip (zip (xyxy b) (conf b)) (cls b)
    end).

(** "caller's per-class override for this class name if present, else the
    configured global default" *)
Definition effective_threshold (thresholds : gmap string Q) (name : string) : Q :=
  match thresholds !! name with
  | Some t => t
  | None => CONFIDENCE_THRESHOLD
  end.

(** A raw detection mapped to [name] is kept when the allowlist, if one
    was supplied, has [name], and the confidence is not below the
    effective threshold, both taken as float32 values. *)
Definition spec_kept (classes : list string) (thresholds : gmap string Q)
    (name : string) (c : Q) : Prop :=
  (classes <> [] -> name ∈ classes) /\
  ~ (float32 c < float32 (effective_threshold thresholds name))%Q.

(** The same rule with the confidence and the threshold compared as the
    numbers they are, which is how the specification words it. *)
Definition exact_kept (classes : list string) (thresholds : gmap string Q)
    (name : string) (c : Q) : Prop :=
  (classes <> [] -> name ∈ classes) /\
  ~ (c < effective_threshold thresholds name)%Q.

#[global] Instance exact_kept_dec classes thresholds name c :
  Decision (exact_kept classes thresholds name c).
Proof. unfold exact_kept. apply _. Defined.

Definition exact_emit (classes : list string) (thresholds : gmap string Q)
    (img_width img_height : Z) (raw : RawDetection) : option Detection :=
  let '(box, c, class_id) := raw in
  match YOLO_TO_VY_CLASSES !! class_id with
  | None => None
  | Some name =>
      if decide (exact_kept classes thresholds name c)
      then Some (mkDetection name c (normalize_bbox box img_width img_height))
      else None
  end.

#[global] Instance spec_kept_dec classes thresholds name c :
  Decision (spec_kept classes thresholds name c).
Proof. unfold spec_kept. apply _. Defined.

(** Steps 1 to 4 of the specification for one raw detection, with the
    comparison of step 3 as [spec_kept] makes it. *)
Definition spec_emit (classes : list string) (thresholds : gmap string Q)
    (img_width img_height : Z) (raw : RawDetection) : option Detection :=
  let '(box, c, class_id) := raw in
  match YOLO_TO_VY_CLASSES !! class_id with
  | None => None
  | Some name =>
      if decide (spec_kept classes thresholds name c)
      then Some (mkDetection name c (normalize_bbox box img_width img_height))
      else None
  end.

(** [q] is the minimum of the values of [m]. *)
Definition is_minimum_of (q : Q) (m : gmap string Q) : Prop :=
  (exists k, m !! k = Some q) /\
  (forall k v, m !! k = Some v -> (q <= v)%Q).

(** The unit interval. *)
Definition in_unit (q : Q) : Prop := (0 <= q /\ q <= 1)%Q.

Definition BoundingBox_in_unit (b : BoundingBox) : Prop :=
  in_unit (x b) /\ in_unit (y b) /\ in_unit (width b) /\ in_unit (height b).

(** A box as the detector returns it: clipped to the image, corners in
    order. *)
Definition in_image (img_width img_height : Z) (box : xyxy_row) : Prop :=
  let '(x1, y1, x2, y2) := box in
  ((0 <= x1 /\ x1 <= x2 /\ x2 <= inject_Z img_width) /\
   (0 <= y1 /\ y1 <= y2 /\ y2 <= inject_Z img_height))%Q.


(** The base64 alphabet, padding included. *)
Definition is_base64_char (c : Ascii.ascii) : bool :=
  let n := nat_of_ascii c in
  ((65 <=? n) && (n <=? 90) || (97 <=? n) && (n <=? 122) ||
   (48 <=? n) && (n <=? 57) || (n =? 43) || (n =? 47) || (n =? 61))%nat.

Fixpoint valid_base64 (s : string) : bool :=
  match s with
  | EmptyString => true
  | String c rest => is_base64_char c && valid_base64 rest
  end.

Fixpoint has_comma (s : string) : bool :=
  match s with
  | EmptyString => false
  | String c rest => Ascii.eqb c comma || has_comma rest
  end.

(** "strip everything up to and including the first comma" *)
Fixpoint after_first_comma (s : string) : string :=
  match s with
  | EmptyString => EmptyString
  | String c rest => if Ascii.eqb c comma then rest else after_first_comma rest
  end.

(** The data-URL form [data:image/<subtype>;base64,<payload>]. *)
Definition data_url (subtype payload : string) : string :=
  "data:image/" +:+ subtype +:+ ";base64," +:+ payload.

(** The model's output when it holds exactly one raw detection. *)
Definition one_detection (box : xyxy_row) (c : Q) (class_id : Z) : Results :=
  {| boxes := Some {| xyxy := [box]; conf := [c]; cls := [class_id] |} |}.

(** What [detect_objects] adds to the record of model calls. *)
Definition new_invocations (before after : World) : list Invocation :=
  drop (length (invocations before)) (invocations after).

(** The request [batch_validate] builds for an uploaded file. *)
Definition upload_request (content : list Byte.byte) : DetectionRequest :=
  {| image_data := Some (b64encode content);
     image_url := None;
     classes := [];
     thresholds := ∅;
     nms_iou := 45 # 100 |}.

(** Processing one file on its own: read it, then run the detect path. *)
Definition file_outcome (model : option YOLO) (file : UploadFile)
    : Handler DetectionResponse :=
  fun w =>
    match read file with
    | inl e => (inl e, w)
    | inr content => detect_objects model (upload_request content) w
    end.

Definition initial_world : World := {| clock_reads := 0; invocations := [] |}.

(** The error processing [file] raises, if it raises one. *)
Definition file_error (model : option YOLO) (file : UploadFile) : option Exception :=
  error_of (file_outcome model file initial_world).1.

(** [entry] is the record of [file]: it carries the file's name, and it
    is a failure with the error message exactly when processing the file
    raises. *)
Definition entry_of (model : option YOLO) (file : UploadFile) (entry : BatchEntry)
    : Prop :=
  entry_filename entry = filename file /\
  match file_error model file with
  | Some e => entry = Failed (filename file) (str e)
  | None => success entry = true
  end.

End Specification.

(** ** A concrete environment, model and inputs for the examples *)

Module Fixture.

(** Bytes and strings are in bijection here; a payload whose first byte is
    zero is not an image. *)
#[export] Instance env : Environment := {|
  CONFIDENCE_THRESHOLD := 1 # 2;
  DEVICE := "cpu";
  str_HTTPException := fun c d => pretty c +:+ ": " +:+ d;
  b64decode := fun s => inr (list_byte_of_string s);
  b64encode := string_of_list_byte;
  PILImage := list Byte.byte;
  Image_open := fun bs =>
    match bs with
    | Byte.x00 :: _ => inl (Error "cannot identify image file")
    | _ => inr bs
    end;
  mode := fun _ => "RGB";
  convert := fun img _ => inr img;
  np_array := fun img => inr {| shape := (100, 100, 3); pixels := [] |};
  loop_time := fun k => inject_Z (Z.of_nat k)
|}.

(** One car, one bus, one unmapped class, one low-confidence person. *)
Definition boxes1 : Boxes :=
  {| xyxy := [ (10, 20, 50, 60); (0, 0, 100, 100); (5, 5, 6, 6); (1, 2, 3, 4) ]%Q;
     conf := [ 6 # 10; 9 # 10; 99 # 100; 1 # 10 ];
     cls := [ 2; 5; 99; 0 ] |}.

Definition yolo : YOLO :=
  {| predict := fun _ _ _ => inr [ mkResults None; mkResults (Some boxes1) ] |}.

Definition world0 : World := {| clock_reads := 0; invocations := [] |}.

Definition good_file : UploadFile :=
  {| filename := "a.png"; read := inr [Byte.x01; Byte.x02] |}.

Definition corrupt_file : UploadFile :=
  {| filename := "b.png"; read := inr [Byte.x00; Byte.x02] |}.

Definition other_file : UploadFile :=
  {| filename := "c.png"; read := inr [Byte.x03] |}.

Definition request0 : DetectionRequest :=
  {| image_data := Some "AAAA"; image_url := None; classes := [];
     thresholds := {[ "car" := 7 # 10 ]}; nms_iou := 45 # 100 |}.

End Fixture.

(** ** The remaining handlers: the plate-recognition stub and start-up *)

Record ALPRRequest := mkALPRRequest {
  alpr_image_data : option string;
  alpr_image_url : option string;
  region : string
}.

(** An element of [plates]: a dictionary with these four keys. *)
Record PlateRecord := mkPlateRecord {
  plate : string;
  plate_confidence : Q;
  plate_region : string;
  plate_bbox : BoundingBox
}.

Record ALPRResponse := mkALPRResponse {
  plates : list PlateRecord;
  alpr_processing_time_ms : Q
}.

(** What [load_model] needs: the weights path, the constructor
    [YOLO(path)] and [model.to(device)].  [to] changes the network in
    place; [YOLO_to] gives the network as it is afterwards. *)
Class Loader := {
  YOLO_WEIGHTS : string;
  YOLO_load : string -> Result YOLO;
  YOLO_to : YOLO -> string -> Result YOLO
}.

Section Startup.
Context {env : Environment} {loader : Loader}.

Definition alpr_detection (request : ALPRRequest) : Handler ALPRResponse :=
  do! start_time := get_time in
  do! end_time := get_time in
  ret {| plates :=
           [ {| plate := "ABC-1234";
                plate_confidence := 95 # 100;
                plate_region := region request;
                plate_bbox := {| x := 3 # 10; y := 4 # 10;
                                 width := 2 # 10; height := 1 # 10 |} |} ];
         alpr_processing_time_ms := (end_time - start_time) * 1000 |}.

(** [load_model] acts on the global [model]: the state is its value.  The
    global is assigned as soon as the constructor returns, before [to] is
    called; an exception is logged and raised again. *)
Definition load_model (model : option YOLO) : Result unit * option YOLO :=
  match YOLO_load YOLO_WEIGHTS with
  | inl e => (inl e, model)
  | inr m =>
      match YOLO_to m DEVICE with
      | inl e => (inl e, Some m)
      | inr m' => (inr tt, Some m')
      end
  end.

Definition startup_event (model : option YOLO) : Result unit * option YOLO :=
  load_model model.

End Startup.

(** ** Further vocabulary for the properties of Part III *)

(** The application class names. *)
Definition vocabulary : list string :=
  [ "person"; "bicycle"; "car"; "motorcycle"; "truck"; "animal" ].

(** [sep.join(pieces)] for a one-character separator. *)
Fixpoint join (sep : Ascii.ascii) (pieces : list string) : string :=
  match pieces with
  | [] => EmptyString
  | [piece] => piece
  | piece :: rest => piece +:+ String sep (join sep rest)
  end.

Fixpoint count_commas (s : string) : nat :=
  match s with
  | EmptyString => 0%nat
  | String c rest => ((if Ascii.eqb c comma then 1 else 0) + count_commas rest)%nat
  end.

(** The event loop's clock never goes back. *)
Definition clock_monotone `{Environment} : Prop :=
  forall i j : nat, (i <= j)%nat -> (loop_time i <= loop_time j)%Q.

(** The world after a handler ran [reads] more clock readings and made
    the calls [calls]. *)
Definition advanced (w : World) (reads : nat) (calls : list Invocation) : World :=
  {| clock_reads := clock_reads w + reads; invocations := invocations w ++ calls |}.

(** The entry of a file when no model is loaded: the read error if the
    file cannot be read, the status-503 error otherwise. *)
Definition not_loaded_entry `{Environment} (file : UploadFile) : BatchEntry :=
  Failed (filename file)
         (str match read file with
              | inl e => e
              | inr _ => HTTPException 503 "Model not loaded"
              end).

(** ** More example inputs *)

Module Scenario.

(** A network whose call raises. *)
Definition broken_yolo : YOLO :=
  {| predict := fun _ _ _ => inl (Error "CUDA out of memory") |}.

#[export] Instance loader_ok : Loader := {|
  YOLO_WEIGHTS := "./weights/yolov8n.pt";
  YOLO_load := fun _ => inr Fixture.yolo;
  YOLO_to := fun m _ => inr m
|}.

Definition loader_no_weights : Loader := {|
  YOLO_WEIGHTS := "./weights/yolov8n.pt";
  YOLO_load := fun _ => inl (Error "No such file or directory");
  YOLO_to := fun m _ => inr m
|}.

Definition loader_no_device : Loader := {|
  YOLO_WEIGHTS := "./weights/yolov8n.pt";
  YOLO_load := fun _ => inr Fixture.yolo;
  YOLO_to := fun _ _ => inl (Error "CUDA driver not found")
|}.

(** The float32 nearest to 0.7, and the Python float (a double) 0.7. *)
Definition float32_07 : Q := 11744051 # 16777216.

Definition double_07 : Q := 3152519739159347 # 4503599627370496.

Definition empty_file : UploadFile :=
  {| filename := "empty.png"; read := inr [] |}.

End Scenario.

(** * Part II: properties *)

(** ** Numbers *)

Lemma Qltb_lt (a b : Q) : Qltb a b = true <-> (a < b)%Q.
Proof.
  unfold Qltb. rewrite negb_true_iff, <- not_true_iff_false, Qle_bool_iff.
  split; [apply Qnot_le_lt | apply Qlt_not_le].
Qed.

Lemma Qltb_ge (a b : Q) : Qltb a b = false <-> (b <= a)%Q.
Proof. unfold Qltb. rewrite negb_false_iff. apply Qle_bool_iff. Qed.

Lemma inject_Z_pos (n : Z) : 0 < n -> (0 < inject_Z n)%Q.
Proof. intros H. change 0%Q with (inject_Z 0). now rewrite <- Zlt_Qlt. Qed.

(** For a positive divisor, [a / d] is in the unit interval exactly when
    [0 <= a <= d]. *)
Lemma Qdiv_in_unit (a d : Q) :
  (0 < d)%Q -> (in_unit (a / d) <-> (0 <= a)%Q /\ (a <= d)%Q).
Proof.
  intros Hd. unfold in_unit.
  assert (Hmul : (a / d * d == a)%Q) by (field; lra).
  split; intros [H0 H1].
  - split.
    + assert (Hx : (0 <= a / d * d)%Q) by (apply Qmult_le_0_compat; lra).
      rewrite Hmul in Hx. exact Hx.
    + assert (Hx : (a / d * d <= 1 * d)%Q) by (apply Qmult_le_compat_r; lra).
      rewrite Hmul in Hx. lra.
  - split.
    + apply Qle_shift_div_l; [exact Hd | lra].
    + apply Qle_shift_div_r; [exact Hd | lra].
Qed.

(** ** float32 rounding *)

Lemma rne_bounds (q : Q) : Qfloor q <= rne q <= Qfloor q + 1.
Proof.
  unfold rne. destruct (Qltb _ _); [lia |].
  destruct (Qltb _ _); [lia |]. destruct (Z.even _); lia.
Qed.

Lemma rne_inject_Z (n : Z) : rne (inject_Z n) = n.
Proof.
  unfold rne. rewrite Qfloor_Z.
  replace (Qltb (inject_Z n - inject_Z n) (1 # 2)) with true; [reflexivity |].
  symmetry. apply Qltb_lt. lra.
Qed.

Lemma rne_monotone (a b : Q) : (a <= b)%Q -> rne a <= rne b.
Proof.
  intros Hab. pose proof (Qfloor_resp_le _ _ Hab) as Hfloor.
  destruct (Z.eq_dec (Qfloor a) (Qfloor b)) as [Heq | Hne].
  - unfold rne. rewrite <- Heq.
    destruct (Qltb (a - inject_Z (Qfloor a)) (1 # 2)) eqn:Ha1.
    + destruct (Qltb (b - inject_Z (Qfloor a)) (1 # 2)); [lia |].
      destruct (Qltb (1 # 2) (b - inject_Z (Qfloor a))); [lia |].
      destruct (Z.even (Qfloor a)); lia.
    + apply Qltb_ge in Ha1.
      assert (Hb1 : Qltb (b - inject_Z (Qfloor a)) (1 # 2) = false)
        by (apply Qltb_ge; lra).
      rewrite Hb1.
      destruct (Qltb (1 # 2) (a - inject_Z (Qfloor a))) eqn:Ha2.
      * apply Qltb_lt in Ha2.
        assert (Hb2 : Qltb (1 # 2) (b - inject_Z (Qfloor a)) = true)
          by (apply Qltb_lt; lra).
        rewrite Hb2. lia.
      * destruct (Qltb (1 # 2) (b - inject_Z (Qfloor a))).
        -- destruct (Z.even (Qfloor a)); lia.
        -- lia.
  - pose proof (rne_bounds a). pose proof (rne_bounds b). lia.
Qed.

Lemma rne_le_Z (q : Q) (n : Z) : (q <= inject_Z n)%Q -> rne q <= n.
Proof. intros H. rewrite <- (rne_inject_Z n). apply rne_monotone, H. Qed.

Lemma rne_ge_Z (q : Q) (n : Z) : (inject_Z n <= q)%Q -> n <= rne q.
Proof. intros H. rewrite <- (rne_inject_Z n). apply rne_monotone, H. Qed.

Lemma pow2_pos (e : Z) : (0 < 2 ^ e)%Q.
Proof. apply Qpower_0_lt. reflexivity. Qed.

Lemma pow2_le (n m : Z) : n <= m -> (2 ^ n <= 2 ^ m)%Q.
Proof. intros H. apply Qpower_le_compat_l; [exact H | discriminate]. Qed.

Lemma pow2_lt (n m : Z) : n < m -> (2 ^ n < 2 ^ m)%Q.
Proof. intros H. apply Qpower_lt_compat_l; [exact H | reflexivity]. Qed.

Lemma pow2_plus (n m : Z) : (2 ^ (n + m) == 2 ^ n * 2 ^ m)%Q.
Proof. apply Qpower_plus. discriminate. Qed.

Lemma pow2_Z (n : Z) : 0 <= n -> (inject_Z (2 ^ n) == 2 ^ n)%Q.
Proof. intros H. apply (Zpower_Qpower 2 n H). Qed.

(** An exponent is determined by its binade. *)
Lemma pow2_lt_inv (n m : Z) : (2 ^ n < 2 ^ m)%Q -> n < m.
Proof.
  intros H. destruct (Z.lt_ge_cases n m) as [Hlt | Hge]; [exact Hlt |].
  apply pow2_le in Hge. lra.
Qed.

Lemma Z_bounds_Q (n : Z) :
  0 < n ->
  (2 ^ Z.log2 n <= inject_Z n)%Q /\ (inject_Z n < 2 ^ (Z.log2 n + 1))%Q.
Proof.
  intros Hn. destruct (Z.log2_spec n Hn) as [Hlo Hhi].
  pose proof (Z.log2_nonneg n) as Hnn.
  split.
  - rewrite <- pow2_Z by exact Hnn. rewrite <- Zle_Qle. exact Hlo.
  - rewrite <- pow2_Z by lia. rewrite <- Zlt_Qlt. exact Hhi.
Qed.

Lemma ilog2_spec (q : Q) :
  (0 < q)%Q -> (2 ^ ilog2 q <= q)%Q /\ (q < 2 ^ (ilog2 q + 1))%Q.
Proof.
  intros Hq. destruct q as [n d].
  assert (Hn : 0 < n) by (unfold Qlt in Hq; simpl in Hq; lia).
  destruct (Z_bounds_Q n Hn) as [Hnlo Hnhi].
  destruct (Z_bounds_Q (Zpos d) eq_refl) as [Hdlo Hdhi].
  set (ln := Z.log2 n) in *. set (ld := Z.log2 (Zpos d)) in *.
  assert (Hmul : (n # d) * inject_Z (Zpos d) == inject_Z n).
  { rewrite (Qmake_Qdiv n d). field. discriminate. }
  assert (HD : (0 < inject_Z (Zpos d))%Q) by reflexivity.
  assert (Hup : (n # d < 2 ^ (ln - ld + 1))%Q).
  { apply (Qmult_lt_r _ _ (inject_Z (Zpos d)) HD). rewrite Hmul.
    eapply Qlt_le_trans; [exact Hnhi |].
    replace (ln + 1) with ((ln - ld + 1) + ld) by lia. rewrite pow2_plus.
    apply Qmult_le_l; [apply pow2_pos | exact Hdlo]. }
  assert (Hlow : (2 ^ (ln - ld - 1) < n # d)%Q).
  { apply (Qmult_lt_r _ _ (inject_Z (Zpos d)) HD). rewrite Hmul.
    eapply Qlt_le_trans; [| exact Hnlo].
    replace ln with ((ln - ld - 1) + (ld + 1)) at 2 by lia. rewrite pow2_plus.
    apply Qmult_lt_l; [apply pow2_pos | exact Hdhi]. }
  unfold ilog2. cbn [Qnum Qden]. fold ln ld.
  destruct (Qle_bool (2 ^ (ln - ld)) (n # d)) eqn:Hcmp.
  - apply Qle_bool_iff in Hcmp. split; assumption.
  - assert (Hlt : (n # d < 2 ^ (ln - ld))%Q).
    { apply Qnot_le_lt. intros Hle. apply Qle_bool_iff in Hle. congruence. }
    split; [apply Qlt_le_weak, Hlow |].
    replace (ln - ld - 1 + 1) with (ln - ld) by lia. exact Hlt.
Qed.

Lemma ilog2_monotone (a b : Q) : (0 < a)%Q -> (a <= b)%Q -> ilog2 a <= ilog2 b.
Proof.
  intros Ha Hab.
  destruct (ilog2_spec a Ha) as [Halo _].
  destruct (ilog2_spec b) as [_ Hbhi]; [lra |].
  assert (H : ilog2 a < ilog2 b + 1) by (apply pow2_lt_inv; lra).
  lia.
Qed.

Lemma float32_ulp_exp (a : Q) : float32_ulp a = (2 ^ (float32_exp a - 23))%Q.
Proof. reflexivity. Qed.

Lemma float32_ulp_pos (a : Q) : (0 < float32_ulp a)%Q.
Proof. apply pow2_pos. Qed.

(** [2^24] ulps make the next binade, [2^23] ulps the current one. *)
Lemma ulp_scale (e : Z) :
  (inject_Z 16777216 * 2 ^ (e - 23) == 2 ^ (e + 1))%Q /\
  (inject_Z 8388608 * 2 ^ (e - 23) == 2 ^ e)%Q.
Proof.
  split.
  - replace (e + 1) with (24 + (e - 23)) by lia. rewrite pow2_plus. reflexivity.
  - replace e with (23 + (e - 23)) at 2 by lia. rewrite pow2_plus. reflexivity.
Qed.

Lemma float32_abs_nonneg (a : Q) : (0 <= a)%Q -> (0 <= float32_abs a)%Q.
Proof.
  intros Ha. unfold float32_abs. pose proof (float32_ulp_pos a) as Hu.
  apply Qmult_le_0_compat; [| lra].
  change 0%Q with (inject_Z 0). rewrite <- Zle_Qle. apply rne_ge_Z.
  apply Qle_shift_div_l; [exact Hu | ]. change (inject_Z 0) with 0%Q. lra.
Qed.

Lemma float32_abs_zero (a : Q) : (a == 0)%Q -> (float32_abs a == 0)%Q.
Proof.
  intros Ha. unfold float32_abs. pose proof (float32_ulp_pos a) as Hu.
  assert (Hr : rne (a / float32_ulp a) = 0).
  { apply Z.le_antisymm.
    - apply rne_le_Z. apply Qle_shift_div_r; [exact Hu |].
      change (inject_Z 0) with 0%Q. lra.
    - apply rne_ge_Z. apply Qle_shift_div_l; [exact Hu |].
      change (inject_Z 0) with 0%Q. lra. }
  rewrite Hr. change (inject_Z 0) with 0%Q. lra.
Qed.

Lemma float32_abs_upper (a : Q) :
  (0 < a)%Q -> (float32_abs a <= 2 ^ (float32_exp a + 1))%Q.
Proof.
  intros Ha. unfold float32_abs. rewrite float32_ulp_exp.
  destruct (ulp_scale (float32_exp a)) as [Hscale _]. rewrite <- Hscale.
  apply Qmult_le_compat_r; [| apply Qlt_le_weak, pow2_pos].
  rewrite <- Zle_Qle. apply rne_le_Z.
  apply Qle_shift_div_r; [apply pow2_pos |]. rewrite Hscale.
  destruct (ilog2_spec a Ha) as [_ Hhi]. apply Qlt_le_weak.
  eapply Qlt_le_trans; [exact Hhi |]. apply pow2_le. unfold float32_exp. lia.
Qed.

Lemma float32_abs_lower (a : Q) :
  (0 < a)%Q -> -126 < float32_exp a -> (2 ^ float32_exp a <= float32_abs a)%Q.
Proof.
  intros Ha Hnormal. unfold float32_abs. rewrite float32_ulp_exp.
  destruct (ulp_scale (float32_exp a)) as [_ Hscale]. rewrite <- Hscale at 1.
  apply Qmult_le_compat_r; [| apply Qlt_le_weak, pow2_pos].
  rewrite <- Zle_Qle. apply rne_ge_Z.
  apply Qle_shift_div_l; [apply pow2_pos |]. rewrite Hscale.
  destruct (ilog2_spec a Ha) as [Hlo _].
  replace (float32_exp a) with (ilog2 a); [exact Hlo |].
  unfold float32_exp in *. lia.
Qed.

Lemma float32_abs_monotone (a b : Q) :
  (0 <= a)%Q -> (a <= b)%Q -> (float32_abs a <= float32_abs b)%Q.
Proof.
  intros Ha Hab.
  destruct (Qlt_le_dec 0 a) as [Hpos | Hzero].
  - assert (Hexp : float32_exp a <= float32_exp b).
    { unfold float32_exp. pose proof (ilog2_monotone a b Hpos Hab). lia. }
    destruct (Z.eq_dec (float32_exp a) (float32_exp b)) as [Heq | Hne].
    + unfold float32_abs. rewrite !float32_ulp_exp, Heq.
      apply Qmult_le_compat_r; [| apply Qlt_le_weak, pow2_pos].
      rewrite <- Zle_Qle. apply rne_monotone.
      apply Qmult_le_compat_r; [exact Hab |].
      apply Qlt_le_weak, Qinv_lt_0_compat, pow2_pos.
    + eapply Qle_trans; [apply float32_abs_upper, Hpos |].
      eapply Qle_trans; [| apply float32_abs_lower; [lra | unfold float32_exp in *; lia]].
      apply pow2_le. lia.
  - rewrite (float32_abs_zero a) by lra. apply float32_abs_nonneg. lra.
Qed.

(** Rounding to float32 keeps the order. *)
Lemma float32_monotone (a b : Q) : (a <= b)%Q -> (float32 a <= float32 b)%Q.
Proof.
  intros Hab. unfold float32.
  destruct (Qltb a 0) eqn:Ha; destruct (Qltb b 0) eqn:Hb.
  - apply Qltb_lt in Ha, Hb. apply Qopp_le_compat.
    apply float32_abs_monotone; lra.
  - apply Qltb_lt in Ha. apply Qltb_ge in Hb.
    pose proof (float32_abs_nonneg (- a)). pose proof (float32_abs_nonneg b). lra.
  - apply Qltb_ge in Ha. apply Qltb_lt in Hb. lra.
  - apply Qltb_ge in Ha, Hb. apply float32_abs_monotone; lra.
Qed.

Lemma rne_eq_Z (q : Q) (n : Z) : (q == inject_Z n)%Q -> rne q = n.
Proof.
  intros H. apply Z.le_antisymm; [apply rne_le_Z | apply rne_ge_Z]; lra.
Qed.

Lemma ilog2_unique (q : Q) (e : Z) :
  (2 ^ e <= q)%Q -> (q < 2 ^ (e + 1))%Q -> ilog2 q = e.
Proof.
  intros Hlo Hhi. pose proof (pow2_pos e) as Hp.
  destruct (ilog2_spec q) as [Hlo' Hhi']; [lra |].
  assert (H1 : e < ilog2 q + 1) by (apply pow2_lt_inv; lra).
  assert (H2 : ilog2 q < e + 1) by (apply pow2_lt_inv; lra).
  lia.
Qed.

(** A value [m * 2^(e-23)] with [e >= -126], [m <= 2^24], and [m >= 2^23]
    unless [e = -126], is a float32: rounding leaves it as it is. *)
Lemma float32_abs_grid (m e : Z) :
  -126 <= e -> 0 <= m <= 16777216 -> (e = -126 \/ 8388608 <= m) ->
  (float32_abs (inject_Z m * 2 ^ (e - 23)) == inject_Z m * 2 ^ (e - 23))%Q.
Proof.
  intros He Hm Hnormal.
  set (r := (inject_Z m * 2 ^ (e - 23))%Q).
  destruct (ulp_scale e) as [Hnext Hthis].
  pose proof (pow2_pos (e - 23)) as Hu.
  assert (Hr0 : (0 <= r)%Q).
  { unfold r. apply Qmult_le_0_compat; [| lra].
    change 0%Q with (inject_Z 0). rewrite <- Zle_Qle. lia. }
  assert (Hsame : float32_exp r = e -> (float32_abs r == r)%Q).
  { intros Hexp. unfold float32_abs. rewrite float32_ulp_exp, Hexp.
    rewrite (rne_eq_Z _ m); [reflexivity |].
    unfold r. field. lra. }
  destruct (Z.eq_dec m 0) as [-> | Hm0].
  { assert (Hrz : (r == 0)%Q) by (unfold r; change (inject_Z 0) with 0%Q; lra).
    rewrite (float32_abs_zero r Hrz). symmetry. exact Hrz. }
  destruct (Z.eq_dec m 16777216) as [-> | Hmtop].
  { assert (Hr : (r == 2 ^ (e + 1))%Q) by (unfold r; exact Hnext).
    assert (Hexp : float32_exp r = e + 1).
    { unfold float32_exp. rewrite (ilog2_unique r (e + 1)); [lia | lra |].
      rewrite Hr. apply pow2_lt. lia. }
    unfold float32_abs. rewrite float32_ulp_exp, Hexp.
    destruct (ulp_scale (e + 1)) as [_ Hhalf].
    rewrite (rne_eq_Z _ 8388608).
    - rewrite Hhalf. symmetry. exact Hr.
    - rewrite Hr, <- Hhalf. field. pose proof (pow2_pos (e + 1 - 23)). lra. }
  assert (Hlt : (r < 2 ^ (e + 1))%Q).
  { rewrite <- Hnext. unfold r. apply Qmult_lt_r; [exact Hu |].
    rewrite <- Zlt_Qlt. lia. }
  destruct (Z.le_gt_cases 8388608 m) as [Hbig | Hsmall].
  - apply Hsame. unfold float32_exp. rewrite (ilog2_unique r e); [lia | | exact Hlt].
    rewrite <- Hthis. unfold r. apply Qmult_le_compat_r; [| lra].
    rewrite <- Zle_Qle. exact Hbig.
  - assert (He' : e = -126) by lia. subst e.
    apply Hsame. unfold float32_exp.
    assert (Hpos : (0 < r)%Q).
    { unfold r. apply Qmult_lt_0_compat; [| exact Hu].
      change 0%Q with (inject_Z 0). rewrite <- Zlt_Qlt. lia. }
    assert (Hsub : (r < 2 ^ (-126))%Q).
    { rewrite <- Hthis. unfold r. apply Qmult_lt_r; [exact Hu |].
      rewrite <- Zlt_Qlt. lia. }
    destruct (ilog2_spec r Hpos) as [Hlo _].
    assert (ilog2 r < -126) by (apply pow2_lt_inv; lra).
    lia.
Qed.

(** The rounded magnitude is on the grid of its binade. *)
Lemma float32_abs_idempotent (a : Q) :
  (0 <= a)%Q -> (float32_abs (float32_abs a) == float32_abs a)%Q.
Proof.
  intros Ha.
  destruct (Qlt_le_dec 0 a) as [Hpos | Hzero].
  - unfold float32_abs at 2 3. rewrite float32_ulp_exp.
    pose proof (pow2_pos (float32_exp a - 23)) as Hu.
    destruct (ulp_scale (float32_exp a)) as [Hnext Hthis].
    destruct (ilog2_spec a Hpos) as [Hlo Hhi].
    assert (Hexp : (a < 2 ^ (float32_exp a + 1))%Q).
    { eapply Qlt_le_trans; [exact Hhi |]. apply pow2_le.
      unfold float32_exp. lia. }
    apply float32_abs_grid.
    + unfold float32_exp. lia.
    + split.
      * apply rne_ge_Z. apply Qle_shift_div_l; [exact Hu |].
        change (inject_Z 0) with 0%Q. lra.
      * apply rne_le_Z. apply Qle_shift_div_r; [exact Hu |]. lra.
    + destruct (Z.eq_dec (float32_exp a) (-126)) as [Heq | Hne]; [left; exact Heq |].
      right. apply rne_ge_Z. apply Qle_shift_div_l; [exact Hu |].
      rewrite Hthis. replace (float32_exp a) with (ilog2 a); [exact Hlo |].
      unfold float32_exp in *. lia.
  - assert (Hz : (float32_abs a == 0)%Q) by (apply float32_abs_zero; lra).
    apply float32_abs_zero in Hz as Hzz.
    rewrite Hzz. symmetry. exact Hz.
Qed.

(** Rounding twice is rounding once: the result of [float32] is a float32. *)
Lemma float32_idempotent (q : Q) : (float32 (float32 q) == float32 q)%Q.
Proof.
  unfold float32 at 2 3.
  destruct (Qltb q 0) eqn:Hq.
  - apply Qltb_lt in Hq.
    pose proof (float32_abs_nonneg (- q)) as Hnn.
    assert (Hnn' : (0 <= float32_abs (- q))%Q) by (apply Hnn; lra).
    unfold float32.
    destruct (Qltb (- float32_abs (- q)) 0) eqn:Hneg.
    + assert (Hrw : (float32_abs (- - float32_abs (- q)) ==
                     float32_abs (float32_abs (- q)))%Q).
      { apply Qle_antisym; apply float32_abs_monotone; lra. }
      rewrite Hrw, float32_abs_idempotent by lra. reflexivity.
    + apply Qltb_ge in Hneg.
      assert (Hz : (float32_abs (- q) == 0)%Q) by lra.
      assert (Hz' : (- float32_abs (- q) == 0)%Q) by lra.
      rewrite (float32_abs_zero _ Hz'). lra.
  - apply Qltb_ge in Hq.
    pose proof (float32_abs_nonneg q Hq) as Hnn.
    unfold float32.
    replace (Qltb (float32_abs q) 0) with false
      by (symmetry; apply Qltb_ge; exact Hnn).
    apply float32_abs_idempotent, Hq.
Qed.

Lemma np_less_lt (a b : Q) : np_less a b = true <-> (float32 a < float32 b)%Q.
Proof. apply Qltb_lt. Qed.

Lemma np_less_ge (a b : Q) : np_less a b = false <-> (float32 b <= float32 a)%Q.
Proof. apply Qltb_ge. Qed.

(** A confidence that is not below the threshold as a number is not below
    it as a float32 either. *)
Lemma not_lt_float32 (c t : Q) : ~ (c < t)%Q -> ~ (float32 c < float32 t)%Q.
Proof.
  intros Hnot. apply Qle_not_lt, float32_monotone, Qnot_lt_le, Hnot.
Qed.

(** Known float32 values: 0.7 (from the rational and from the double), a
    tie that goes to the even neighbour, a subnormal, and an underflow. *)
Example float32_values :
  (float32 (7 # 10) == 11744051 # 16777216)%Q /\
  (float32 (3152519739159347 # 4503599627370496) == 11744051 # 16777216)%Q /\
  (float32 (11744051 # 16777216) == 11744051 # 16777216)%Q /\
  (float32 16777217 == 16777216)%Q /\
  (float32 16777219 == 16777220)%Q /\
  (float32 ((3 # 2) * 2 ^ (-149)) == 2 ^ (-148))%Q /\
  (float32 ((1 # 3) * 2 ^ (-149)) == 0)%Q.
Proof. repeat split; vm_compute; reflexivity. Qed.


(** ** normalize_bbox *)

Section Normalizer.

Variables (img_width img_height : Z).
Hypothesis width_pos : 0 < img_width.
Hypothesis height_pos : 0 < img_height.

(** No clamping: a field is in [0,1] exactly when the pixel quantity it
  is computed from lies between 0 and the image dimension. *)
Lemma normalize_bbox_in_unit_iff (x1 y1 x2 y2 : Q) :
BoundingBox_in_unit (normalize_bbox (x1, y1, x2, y2) img_width img_height) <->
((0 <= x1 /\ x1 <= inject_Z img_width) /\
 (0 <= y1 /\ y1 <= inject_Z img_height) /\
 (0 <= x2 - x1 /\ x2 - x1 <= inject_Z img_width) /\
 (0 <= y2 - y1 /\ y2 - y1 <= inject_Z img_height))%Q.
Proof.
pose proof (inject_Z_pos _ width_pos) as HW.
pose proof (inject_Z_pos _ height_pos) as HH.
unfold BoundingBox_in_unit; cbn [normalize_bbox x y width height].
rewrite !Qdiv_in_unit by assumption. reflexivity.
Qed.

Lemma normalize_bbox_sum (x1 y1 x2 y2 : Q) :
let b := normalize_bbox (x1, y1, x2, y2) img_width img_height in
(x b + width b == x2 / inject_Z img_width)%Q /\
(y b + height b == y2 / inject_Z img_height)%Q.
Proof.
pose proof (inject_Z_pos _ width_pos) as HW.
pose proof (inject_Z_pos _ height_pos) as HH.
intros b; subst b; cbn [normalize_bbox x y width height].
split; field; lra.
Qed.

End Normalizer.

(** C5.  For positive image dimensions and corners inside the image
    ([0 <= x1 <= x2 <= W], [0 <= y1 <= y2 <= H]) the four fields of the
    normalised box are in [0,1], and [x + width] equals [x2 / W] in exact
    rational arithmetic. *)
Theorem normalizer_round_trip (W H : Z) (x1 y1 x2 y2 : Q) :
  0 < W -> 0 < H ->
  (0 <= x1)%Q -> (x1 <= x2)%Q -> (x2 <= inject_Z W)%Q ->
  (0 <= y1)%Q -> (y1 <= y2)%Q -> (y2 <= inject_Z H)%Q ->
  let b := normalize_bbox (x1, y1, x2, y2) W H in
  in_unit (x b) /\ in_unit (y b) /\ in_unit (width b) /\ in_unit (height b) /\
  (x b + width b == x2 / inject_Z W)%Q.
Proof.
  intros HW HH Hx1 Hx12 Hx2 Hy1 Hy12 Hy2 b.
  assert (Hunit : BoundingBox_in_unit b).
  { apply normalize_bbox_in_unit_iff; [assumption | assumption |].
    repeat split; lra. }
  destruct Hunit as (Hx & Hy & Hw & Hh).
  repeat split; try (apply Hx || apply Hy || apply Hw || apply Hh).
  apply (normalize_bbox_sum W H HW HH x1 y1 x2 y2).
Qed.

Lemma normalizer_round_trip_witness :
  let b := normalize_bbox (10, 20, 50, 60)%Q 100 100 in
  in_unit (x b) /\ in_unit (y b) /\ in_unit (width b) /\ in_unit (height b) /\
  (x b + width b == 50 / inject_Z 100)%Q.
Proof.
  apply (normalizer_round_trip 100 100 10 20 50 60);
    first [ reflexivity | (unfold Qle; simpl; lia) ].
Defined.





(** The normaliser itself does not clamp: on a row that is not inside the
    image, here one that starts five pixels to the left of a 10 x 10
    image, a field leaves the unit interval. *)
Example normalize_bbox_does_not_clamp :
  ~ in_image 10 10 (-5, 0, 5, 10)%Q /\
  ~ BoundingBox_in_unit (normalize_bbox (-5, 0, 5, 10)%Q 10 10).
Proof.
  split.
  - intros [(Hx & _) _]. unfold Qle in Hx. simpl in Hx. lia.
  - intros ((Hx & _) & _). cbn in Hx. unfold Qle in Hx. simpl in Hx. lia.
Qed.

(** ** The class map *)

(** Every entry of the class map, by case analysis on the literal. *)
Lemma YOLO_TO_VY_CLASSES_entries (class_id : Z) (name : string) :
  YOLO_TO_VY_CLASSES !! class_id = Some name ->
  (class_id, name) ∈
    [ (0, "person"); (1, "bicycle"); (2, "car"); (3, "motorcycle");
      (5, "truck"); (7, "truck");
      (14, "animal"); (15, "animal"); (16, "animal"); (17, "animal") ].
Proof. intros Hlook. apply elem_of_list_to_map_2 in Hlook. exact Hlook. Qed.

(** No class is mapped to the empty string, so [if not vy_class] fires
    only for an absent id. *)
Lemma YOLO_TO_VY_CLASSES_truthy (class_id : Z) (name : string) :
  YOLO_TO_VY_CLASSES !! class_id = Some name -> String.eqb name EmptyString = false.
Proof.
  intros Hlook. apply YOLO_TO_VY_CLASSES_entries in Hlook.
  repeat (apply elem_of_cons in Hlook as [Heq | Hlook];
          [injection Heq as -> ->; reflexivity |]).
  apply elem_of_nil in Hlook. contradiction.
Qed.

Lemma YOLO_TO_VY_CLASSES_unmapped (class_id : Z) :
  17 < class_id -> YOLO_TO_VY_CLASSES !! class_id = None.
Proof.
  intros Hbig. destruct (YOLO_TO_VY_CLASSES !! class_id) as [name |] eqn:Hlook;
    [| reflexivity].
  apply YOLO_TO_VY_CLASSES_entries in Hlook.
  repeat (apply elem_of_cons in Hlook as [Heq | Hlook];
          [injection Heq as -> ->; lia |]).
  apply elem_of_nil in Hlook. contradiction.
Qed.

(** ** filter_detections *)

Section Filter.
Context {env : Environment}.
Variables (classes : list string) (thresholds : gmap string Q).
Variables (img_width img_height : Z).

(** [thresholds.get(vy_class, CONFIDENCE_THRESHOLD)] is the effective
    threshold of the specification. *)
Lemma get_threshold (name : string) :
  default CONFIDENCE_THRESHOLD (thresholds !! name) =
  effective_threshold thresholds name.
Proof. unfold effective_threshold. destruct (thresholds !! name); reflexivity. Qed.

(** The allowlist test of the code, read as a proposition. *)
Lemma allowlist_skip (name : string) :
  negb (bool_decide (classes = [])) && negb (bool_decide (name ∈ classes)) = false <->
  (classes <> [] -> name ∈ classes).
Proof.
  rewrite andb_false_iff, !negb_false_iff, !bool_decide_eq_true.
  split.
  - intros [Hnil | Hin] Hne; [contradiction | exact Hin].
  - intros Himp. destruct (decide (classes = [])) as [Hnil | Hne];
      [left; exact Hnil | right; apply Himp, Hne].
Qed.

(** One turn of the inner loop appends what the specification emits for
    that raw detection. *)
Lemma filter_step_spec (detections : list Detection) (raw : RawDetection) :
  filter_step classes thresholds img_width img_height detections raw =
  detections ++
    option_list (spec_emit classes thresholds img_width img_height raw).
Proof.
  destruct raw as [[box c] class_id]. unfold filter_step, spec_emit.
  destruct (YOLO_TO_VY_CLASSES !! class_id) as [name |] eqn:Hlook;
    [| symmetry; apply app_nil_r].
  rewrite (YOLO_TO_VY_CLASSES_truthy _ _ Hlook), get_threshold.
  destruct (negb (bool_decide (classes = [])) && negb (bool_decide (name ∈ classes)))
    eqn:Hallow.
  - rewrite decide_False; [symmetry; apply app_nil_r |].
    intros [Himp _]. apply (proj2 (allowlist_skip name)) in Himp. congruence.
  - pose proof (proj1 (allowlist_skip name) Hallow) as Himp.
    destruct (np_less c (effective_threshold thresholds name)) eqn:Hlt.
    + apply np_less_lt in Hlt. rewrite decide_False; [symmetry; apply app_nil_r |].
      intros [_ Hnot]. contradiction.
    + apply np_less_ge in Hlt. rewrite decide_True; [reflexivity |].
      split; [exact Himp | apply Qle_not_lt, Hlt].
Qed.

Lemma inner_loop_spec (rows : list RawDetection) (detections : list Detection) :
  fold_left (filter_step classes thresholds img_width img_height) rows detections =
  detections ++ omap (spec_emit classes thresholds img_width img_height) rows.
Proof.
  revert detections. induction rows as [| raw rows IH]; intros detections.
  - symmetry. apply app_nil_r.
  - cbn [fold_left]. rewrite IH, filter_step_spec, <- app_assoc. f_equal.
    cbn [omap list_omap].
    destruct (spec_emit classes thresholds img_width img_height raw); reflexivity.
Qed.

Lemma outer_loop_spec (results : list Results) (detections : list Detection) :
  fold_left
    (fun detections result =>
       match boxes result with
       | None => detections
       | Some b =>
           fold_left (filter_step classes thresholds img_width img_height)
                     (zip (zip (xyxy b) (conf b)) (cls b)) detections
       end)
    results detections =
  detections ++
    omap (spec_emit classes thresholds img_width img_height) (raw_detections results).
Proof.
  revert detections. induction results as [| result results IH]; intros detections.
  - symmetry. apply app_nil_r.
  - cbn [fold_left]. rewrite IH. unfold raw_detections at 2.
    rewrite bind_cons, omap_app. fold (raw_detections results).
    destruct (boxes result) as [b |].
    + rewrite inner_loop_spec, <- app_assoc. reflexivity.
    + reflexivity.
Qed.

End Filter.

(** What the specification emits for one raw detection, spelled out. *)
Lemma spec_emit_Some `{Environment} classes thresholds w h box c class_id d :
  spec_emit classes thresholds w h (box, c, class_id) = Some d <->
  exists name,
    YOLO_TO_VY_CLASSES !! class_id = Some name /\
    (classes <> [] -> name ∈ classes) /\
    ~ (float32 c < float32 (effective_threshold thresholds name))%Q /\
    d = mkDetection name c (normalize_bbox box w h).
Proof.
  unfold spec_emit. destruct (YOLO_TO_VY_CLASSES !! class_id) as [name |].
  - destruct (decide (spec_kept classes thresholds name c)) as [[Ha Ht] | Hno].
    + split.
      * intros [= <-]. exists name. repeat split; assumption.
      * intros (name' & [= <-] & _ & _ & ->). reflexivity.
    + split; [discriminate |].
      intros (name' & [= <-] & Ha & Ht & _). exfalso. apply Hno. split; assumption.
  - split; [discriminate | intros (name & Hname & _); discriminate].
Qed.

(** Raw detections for which [f] gives nothing may be removed beforehand. *)
Lemma omap_filter_None {A B} (f : A -> option B) (P : A -> Prop)
    `{forall a, Decision (P a)} (l : list A) :
  (forall a, ~ P a -> f a = None) -> omap f (filter P l) = omap f l.
Proof.
  intros Hnone. induction l as [| a l IH]; [reflexivity |].
  rewrite filter_cons. destruct (decide (P a)) as [Hp | Hn]; cbn [omap list_omap].
  - rewrite <- IH. reflexivity.
  - rewrite (Hnone a Hn). exact IH.
Qed.

(** The two loops of [filter_detections], as one pass over the raw
    detections. *)
Lemma filter_detections_lists `{Environment} (results : list Results)
    (classes : list string) (thresholds : gmap string Q) (img_width img_height : Z) :
  filter_detections results classes thresholds img_width img_height =
  [] ++ omap (spec_emit classes thresholds img_width img_height) (raw_detections results).
Proof. unfold filter_detections. apply outer_loop_spec. Qed.

(** C2, as stated, fails.  The confidence is a float32 and numpy compares
    it with the threshold cast to float32.  A car whose confidence is the
    float32 nearest to 0.7 is strictly below the Python float 0.7, yet
    [filter_detections] emits it under [{"car": 0.7}]; the rule with the
    two numbers compared as they are drops it. *)
Lemma filter_detections_compares_float32 :
  (Scenario.float32_07 < Scenario.double_07)%Q /\
  filter_detections (env := Fixture.env)
    [one_detection (10, 20, 50, 60)%Q Scenario.float32_07 2] []
    {[ "car" := Scenario.double_07 ]} 100 100 =
  [mkDetection "car" Scenario.float32_07 (normalize_bbox (10, 20, 50, 60)%Q 100 100)] /\
  omap (exact_emit (env := Fixture.env) [] {[ "car" := Scenario.double_07 ]} 100 100)
       (raw_detections [one_detection (10, 20, 50, 60)%Q Scenario.float32_07 2]) = [].
Proof. split; [reflexivity | split; vm_compute; reflexivity]. Qed.

(** C2, amended.  [filter_detections] returns, in the invoker's order, the
    detections whose class id is in the class map, whose mapped name is in
    the allowlist when a non-empty allowlist was supplied, and whose
    confidence is not below the effective threshold once both are float32
    values, each with the mapped name, the raw confidence and the
    normalised box. *)
Theorem filter_detections_spec `{Environment} (results : list Results)
    (classes : list string) (thresholds : gmap string Q) (img_width img_height : Z) :
  filter_detections results classes thresholds img_width img_height =
  omap (spec_emit classes thresholds img_width img_height) (raw_detections results).
Proof. rewrite filter_detections_lists. reflexivity. Qed.

Lemma raw_detections_one box c class_id :
  raw_detections [one_detection box c class_id] = [(box, c, class_id)].
Proof. reflexivity. Qed.

(** [filter_detections] on a single mapped raw detection. *)
Lemma filter_one_mapped `{Environment} box c class_id name classes thresholds w h :
  YOLO_TO_VY_CLASSES !! class_id = Some name ->
  filter_detections [one_detection box c class_id] classes thresholds w h =
  if decide (spec_kept classes thresholds name c)
  then [mkDetection name c (normalize_bbox box w h)] else [].
Proof.
  intros Hmap. rewrite filter_detections_lists, raw_detections_one.
  cbn [omap list_omap spec_emit]. rewrite Hmap.
  destruct (decide (spec_kept classes thresholds name c)); reflexivity.
Qed.

Lemma filter_one_unmapped `{Environment} box c class_id classes thresholds w h :
  YOLO_TO_VY_CLASSES !! class_id = None ->
  filter_detections [one_detection box c class_id] classes thresholds w h = [].
Proof.
  intros Hmap. rewrite filter_detections_lists, raw_detections_one.
  cbn [omap list_omap spec_emit]. rewrite Hmap. reflexivity.
Qed.

Lemma lookup_car : YOLO_TO_VY_CLASSES !! 2 = Some "car".
Proof. vm_compute. reflexivity. Qed.

Lemma lookup_bus : YOLO_TO_VY_CLASSES !! 5 = Some "truck".
Proof. vm_compute. reflexivity. Qed.

Lemma lookup_99 : YOLO_TO_VY_CLASSES !! 99 = None.
Proof. apply YOLO_TO_VY_CLASSES_unmapped. lia. Qed.

(** C6, as stated, fails at the edge of float32.  A car whose confidence
    is the float32 nearest to 0.7 is strictly below the threshold of
    [{"car": 0.7}], and it is not discarded. *)
Lemma per_class_threshold_not_exact :
  let thresholds : gmap string Q := {[ "car" := Scenario.double_07 ]} in
  (Scenario.float32_07 <
   match thresholds !! "car" with
   | Some t => t
   | None => CONFIDENCE_THRESHOLD (Environment := Fixture.env)
   end)%Q /\
  filter_detections (env := Fixture.env)
    [one_detection (0, 0, 50, 50)%Q Scenario.float32_07 2] ["car"] thresholds 100 100 <> [].
Proof. split; [reflexivity | vm_compute; discriminate]. Qed.

(** C6, amended.  The threshold a detection is held to is the caller's
    override for its mapped class name when there is one and the
    configured default otherwise, and a detection that passes the allowlist
    is discarded exactly when its confidence is strictly below that
    threshold as float32 values.  A car at confidence 0.6 is emitted under
    [{"car": 0.5}] and dropped under [{"car": 0.7}]. *)
Theorem per_class_threshold `{Environment} :
  (forall box c class_id name classes thresholds w h,
      YOLO_TO_VY_CLASSES !! class_id = Some name ->
      (classes <> [] -> name ∈ classes) ->
      let threshold :=
        match thresholds !! name with
        | Some t => t
        | None => CONFIDENCE_THRESHOLD
        end in
      filter_detections [one_detection box c class_id] classes thresholds w h =
      if decide (float32 c < float32 threshold)%Q then []
      else [mkDetection name c (normalize_bbox box w h)]) /\
  (forall box classes w h,
      (classes <> [] -> "car" ∈ classes) ->
      filter_detections [one_detection box (6 # 10) 2] classes
                        {[ "car" := 5 # 10 ]} w h =
      [mkDetection "car" (6 # 10) (normalize_bbox box w h)]) /\
  (forall box classes w h,
      filter_detections [one_detection box (6 # 10) 2] classes
                        {[ "car" := 7 # 10 ]} w h = []).
Proof.
  assert (Hgen : forall box c class_id name classes thresholds w h,
      YOLO_TO_VY_CLASSES !! class_id = Some name ->
      (classes <> [] -> name ∈ classes) ->
      filter_detections [one_detection box c class_id] classes thresholds w h =
      if decide (float32 c < float32 (effective_threshold thresholds name))%Q then []
      else [mkDetection name c (normalize_bbox box w h)]).
  { intros box c class_id name classes thresholds w h Hmap Hallow.
    rewrite (filter_one_mapped _ _ _ name) by exact Hmap.
    destruct (decide (float32 c < float32 (effective_threshold thresholds name))%Q)
      as [Hlt | Hge].
    - rewrite decide_False; [reflexivity | intros [_ Hnot]; contradiction].
    - rewrite decide_True; [reflexivity | split; assumption]. }
  split; [exact Hgen | split].
  - intros box classes w h Hallow.
    rewrite (Hgen _ _ _ "car" _ _ _ _ lookup_car Hallow).
    unfold effective_threshold. rewrite lookup_singleton_eq.
    rewrite decide_False; [reflexivity |].
    apply not_lt_float32. unfold Qlt. simpl. lia.
  - intros box classes w h.
    rewrite (filter_one_mapped _ _ _ "car") by exact lookup_car.
    rewrite decide_False; [reflexivity |].
    intros [_ Hnot]. apply Hnot.
    unfold effective_threshold. rewrite lookup_singleton_eq.
    vm_compute. reflexivity.
Qed.

Lemma per_class_threshold_witness :
  filter_detections (env := Fixture.env)
    [one_detection (10, 20, 50, 60)%Q (6 # 10) 2] ["car"] {[ "car" := 5 # 10 ]} 100 100 =
  [mkDetection "car" (6 # 10) (normalize_bbox (10, 20, 50, 60)%Q 100 100)].
Proof.
  apply (proj1 (proj2 (@per_class_threshold Fixture.env))).
  intros _. apply list_elem_of_In. left. reflexivity.
Defined.

(** C7.  Native class id 5 is emitted as "truck" when it passes the
    allowlist and threshold checks; native class id 99 is dropped whatever
    the confidence, the allowlist and the thresholds, alone or among other
    raw detections. *)
Theorem class_remap `{Environment} :
  (forall box c classes thresholds w h,
      (classes <> [] -> "truck" ∈ classes) ->
      ~ (c < effective_threshold thresholds "truck")%Q ->
      filter_detections [one_detection box c 5] classes thresholds w h =
      [mkDetection "truck" c (normalize_bbox box w h)]) /\
  (forall box c classes thresholds w h,
      filter_detections [one_detection box c 99] classes thresholds w h = []) /\
  (forall results classes thresholds w h,
      filter_detections results classes thresholds w h =
      omap (spec_emit classes thresholds w h)
           (filter (fun raw : RawDetection => raw.2 <> 99) (raw_detections results))).
Proof.
  split; [| split].
  - intros box c classes thresholds w h Hallow Hconf.
    rewrite (filter_one_mapped _ _ _ "truck") by exact lookup_bus.
    rewrite decide_True; [reflexivity |].
    split; [exact Hallow | apply not_lt_float32, Hconf].
  - intros box c classes thresholds w h.
    apply filter_one_unmapped, lookup_99.
  - intros results classes thresholds w h.
    rewrite filter_detections_lists, omap_filter_None; [reflexivity |].
    intros [[box c] class_id] Hid. cbn in Hid.
    apply dec_stable in Hid. subst class_id.
    unfold spec_emit. rewrite lookup_99. reflexivity.
Qed.

Lemma class_remap_witness :
  filter_detections (env := Fixture.env)
    [one_detection (0, 0, 100, 100)%Q (9 # 10) 5] [] ∅ 100 100 =
  [mkDetection "truck" (9 # 10) (normalize_bbox (0, 0, 100, 100)%Q 100 100)].
Proof.
  apply (proj1 (@class_remap Fixture.env)).
  - intros Hne. contradiction Hne. reflexivity.
  - vm_compute. discriminate.
Defined.

(** ** decode_image *)

Lemma split_hd_tl (s : string) :
  split comma s = List.hd EmptyString (split comma s) :: List.tl (split comma s).
Proof.
  destruct s as [| c s]; cbn [split]; [reflexivity |].
  destruct (Ascii.eqb c comma); [reflexivity |].
  destruct (split comma s); reflexivity.
Qed.

(** A comma-free prefix stays in the first piece. *)
Lemma split_app (p r : string) :
  has_comma p = false ->
  split comma (p +:+ r) =
  (p +:+ List.hd EmptyString (split comma r)) :: List.tl (split comma r).
Proof.
  induction p as [| c p IH]; cbn [has_comma String.append]; intros Hp.
  - apply split_hd_tl.
  - apply orb_false_iff in Hp as [Hc Hp]. simpl. rewrite Hc, (IH Hp).
    reflexivity.
Qed.

Lemma split_no_comma (s : string) : has_comma s = false -> split comma s = [s].
Proof.
  induction s as [| c s IH]; cbn [has_comma split]; intros Hs; [reflexivity |].
  apply orb_false_iff in Hs as [Hc Hs]. rewrite Hc, (IH Hs). reflexivity.
Qed.

Lemma after_first_comma_app (p r : string) :
  has_comma p = false -> after_first_comma (p +:+ r) = after_first_comma r.
Proof.
  induction p as [| c p IH]; cbn [has_comma]; intros Hp; [reflexivity |].
  apply orb_false_iff in Hp as [Hc Hp]. simpl. rewrite Hc.
  apply IH, Hp.
Qed.

Lemma valid_base64_no_comma (s : string) : valid_base64 s = true -> has_comma s = false.
Proof.
  induction s as [| c s IH]; cbn [valid_base64 has_comma]; intros Hs; [reflexivity |].
  apply andb_true_iff in Hs as [Hc Hs]. rewrite (IH Hs), orb_false_r.
  destruct (Ascii.eqb c comma) eqn:Heq; [| reflexivity].
  apply Ascii.eqb_eq in Heq. subst c. discriminate Hc.
Qed.

(** The colon of [data:image] is not in the base64 alphabet. *)
Lemma valid_base64_no_prefix (s : string) :
  valid_base64 s = true -> startswith s "data:image" = false.
Proof.
  unfold startswith. intros Hs.
  destruct s as [| c0 [| c1 [| c2 [| c3 [| c4 s]]]]]; cbn [String.prefix];
    try reflexivity;
    repeat (match goal with
            | |- context [ascii_dec ?a ?b] => destruct (ascii_dec a b) as [<- |]
            end; try reflexivity).
  cbn in Hs. discriminate Hs.
Qed.

Lemma data_url_startswith (subtype payload : string) :
  startswith (data_url subtype payload) "data:image" = true.
Proof. reflexivity. Qed.

Lemma payload_of_data_url (subtype payload : string) :
  has_comma subtype = false -> has_comma payload = false ->
  payload_of (data_url subtype payload) = inr payload /\
  after_first_comma (data_url subtype payload) = payload.
Proof.
  intros Hsub Hpay. unfold payload_of. rewrite data_url_startswith.
  unfold data_url.
  change (";base64," +:+ payload) with (";base64" +:+ String comma payload).
  split.
  - rewrite (split_app "data:image/"), (split_app subtype), (split_app ";base64")
      by (assumption || reflexivity).
    cbn [split]. rewrite Ascii.eqb_refl, (split_no_comma _ Hpay). reflexivity.
  - rewrite (after_first_comma_app "data:image/"), (after_first_comma_app subtype),
      (after_first_comma_app ";base64") by (assumption || reflexivity).
    cbn [after_first_comma]. rewrite Ascii.eqb_refl. reflexivity.
Qed.

(** C8.  For a payload [s] over the base64 alphabet (so without a comma)
    and a subtype without a comma, decoding the data URL
    [data:image/<subtype>;base64,s] gives what decoding [s] gives: the
    string handed to the base64 decoder is the data URL with everything up
    to and including its first comma removed, and that is [s]. *)
Theorem decode_image_data_url `{Environment} (subtype s : string) :
  has_comma subtype = false ->
  valid_base64 s = true ->
  payload_of (data_url subtype s) = inr (after_first_comma (data_url subtype s)) /\
  after_first_comma (data_url subtype s) = s /\
  decode_image (data_url subtype s) = decode_image s.
Proof.
  intros Hsub Hs.
  destruct (payload_of_data_url subtype s Hsub (valid_base64_no_comma s Hs))
    as [Hpay Hstrip].
  rewrite Hstrip. repeat split; [exact Hpay |].
  unfold decode_image. rewrite Hpay.
  unfold payload_of at 1. rewrite (valid_base64_no_prefix s Hs). reflexivity.
Qed.

Lemma decode_image_data_url_witness :
  payload_of (data_url "png" "iVBORw0KGgo=") =
    inr (after_first_comma (data_url "png" "iVBORw0KGgo=")) /\
  after_first_comma (data_url "png" "iVBORw0KGgo=") = "iVBORw0KGgo=" /\
  decode_image (env := Fixture.env) (data_url "png" "iVBORw0KGgo=") =
    decode_image (env := Fixture.env) "iVBORw0KGgo=".
Proof. apply (@decode_image_data_url Fixture.env "png" "iVBORw0KGgo="); reflexivity. Defined.

(** ** The confidence floor *)

(** [min_from] returns one of the items it was given ... *)
Lemma min_from_elem (best : Q) (vs : list Q) : min_from best vs ∈ best :: vs.
Proof.
  revert best. induction vs as [| v vs IH]; intros best; cbn [min_from].
  - apply elem_of_cons. left. reflexivity.
  - specialize (IH (if Qltb v best then v else best)).
    apply elem_of_cons in IH as [Heq | Hin].
    + rewrite Heq. destruct (Qltb v best).
      * apply elem_of_cons. right. apply elem_of_cons. left. reflexivity.
      * apply elem_of_cons. left. reflexivity.
    + apply elem_of_cons. right. apply elem_of_cons. right. exact Hin.
Qed.

(** ... and none of them is smaller. *)
Lemma min_from_le (best : Q) (vs : list Q) (v : Q) :
  v ∈ best :: vs -> (min_from best vs <= v)%Q.
Proof.
  revert best v. induction vs as [| u vs IH]; intros best v Hin; cbn [min_from].
  - apply elem_of_cons in Hin as [-> | Hin]; [apply Qle_refl |].
    apply elem_of_nil in Hin. contradiction.
  - assert (Hbest : ((if Qltb u best then u else best) <= best)%Q /\
                    ((if Qltb u best then u else best) <= u)%Q).
    { destruct (Qltb u best) eqn:Hlt.
      - apply Qltb_lt in Hlt. split; lra.
      - apply Qltb_ge in Hlt. split; lra. }
    destruct Hbest as [Hb Hu].
    apply elem_of_cons in Hin as [-> | Hin].
    + eapply Qle_trans; [| exact Hb]. apply IH, elem_of_cons. left. reflexivity.
    + apply elem_of_cons in Hin as [-> | Hin].
      * eapply Qle_trans; [| exact Hu]. apply IH, elem_of_cons. left. reflexivity.
      * apply IH, elem_of_cons. right. exact Hin.
Qed.

(** The values of a dictionary are the values of its lookups. *)
Lemma elem_of_values (m : gmap string Q) (v : Q) :
  v ∈ (map_to_list m).*2 <-> exists k, m !! k = Some v.
Proof.
  rewrite list_elem_of_fmap. split.
  - intros ([k v'] & -> & Hin). exists k. apply elem_of_map_to_list, Hin.
  - intros (k & Hk). exists (k, v). split; [reflexivity |].
    apply elem_of_map_to_list, Hk.
Qed.

Lemma conf_floor_empty `{Environment} (request : DetectionRequest) :
  thresholds request = ∅ -> conf_floor request = CONFIDENCE_THRESHOLD.
Proof. intros Hempty. unfold conf_floor. rewrite Hempty, map_to_list_empty. reflexivity. Qed.

Lemma conf_floor_minimum `{Environment} (request : DetectionRequest) :
  thresholds request <> ∅ -> is_minimum_of (conf_floor request) (thresholds request).
Proof.
  intros Hne. unfold conf_floor, is_minimum_of.
  destruct ((map_to_list (thresholds request)).*2) as [| v vs] eqn:Hvals.
  - exfalso. apply Hne, map_to_list_empty_iff.
    destruct (map_to_list (thresholds request)); [reflexivity | discriminate Hvals].
  - split.
    + apply elem_of_values. rewrite Hvals. apply min_from_elem.
    + intros k u Hk. apply min_from_le. rewrite <- Hvals.
      apply elem_of_values. exists k. exact Hk.
Qed.

(** ** detect_objects *)

Lemma new_invocations_app (w : World) (calls : list Invocation) (n : nat) :
  new_invocations w {| clock_reads := n; invocations := invocations w ++ calls |} = calls.
Proof. unfold new_invocations. cbn [invocations]. apply drop_app_length. Qed.

Lemma new_invocations_none (w : World) (n : nat) :
  new_invocations w {| clock_reads := n; invocations := invocations w |} = [].
Proof. unfold new_invocations. cbn [invocations]. apply drop_all. Qed.

(** C3.  [detect_objects] calls the model at most once, after the image
    was obtained, and the confidence floor of that call is the minimum of
    the caller's per-class threshold values when the thresholds mapping is
    not empty, and the configured default when it is empty. *)
Theorem confidence_floor `{Environment} (m : YOLO) (request : DetectionRequest)
    (w : World) :
  new_invocations w (detect_objects (Some m) request w).2 =
    match get_image request with
    | inr img_array => [mkInvocation img_array (conf_floor request) (nms_iou request)]
    | inl _ => []
    end /\
  (thresholds request = ∅ -> conf_floor request = CONFIDENCE_THRESHOLD) /\
  (thresholds request <> ∅ ->
   is_minimum_of (conf_floor request) (thresholds request)).
Proof.
  split; [| split; [apply conf_floor_empty | apply conf_floor_minimum]].
  unfold detect_objects, bind, try_except, lift, get_time, call_model, raise, ret.
  destruct (get_image request) as [e | img_array]; cbn.
  - apply new_invocations_none.
  - destruct (shape img_array) as [[img_height img_width] channels].
    destruct (predict m img_array (conf_floor request) (nms_iou request)); cbn;
      apply new_invocations_app.
Qed.

Lemma confidence_floor_witness :
  new_invocations Fixture.world0
    (detect_objects (env := Fixture.env) (Some Fixture.yolo) Fixture.request0
                    Fixture.world0).2 =
    [mkInvocation {| shape := (100, 100, 3); pixels := [] |} (7 # 10) (45 # 100)] /\
  is_minimum_of (conf_floor (env := Fixture.env) Fixture.request0)
                (thresholds Fixture.request0).
Proof.
  destruct (@confidence_floor Fixture.env Fixture.yolo Fixture.request0 Fixture.world0)
    as (Hcall & _ & Hmin).
  split; [exact Hcall | apply Hmin].
  intros Hempty. apply (f_equal (fun t => t !! "car")) in Hempty.
  rewrite lookup_empty in Hempty. vm_compute in Hempty. discriminate Hempty.
Defined.

(** Inside the [try] block of [detect_objects] the three client errors are
    raised with status 400. *)
Lemma get_image_missing `{Environment} classes thresholds nms_iou :
  get_image (mkDetectionRequest None None classes thresholds nms_iou) =
  inl (HTTPException 400 "Either image_data or image_url required").
Proof. reflexivity. Qed.

Lemma get_image_url `{Environment} c url classes thresholds nms_iou :
  get_image (mkDetectionRequest None (Some (String c url)) classes thresholds nms_iou) =
  inl (HTTPException 400 "Image URL not supported yet").
Proof. reflexivity. Qed.

Lemma decode_image_error_400 `{Environment} (image_data : string) (e : Exception) :
  decode_image image_data = inl e -> exists detail, e = HTTPException 400 detail.
Proof.
  unfold decode_image.
  destruct (try_bind (payload_of image_data) _) as [cause | img]; [| discriminate].
  intros [= <-]. eexists. reflexivity.
Qed.

(** With a model loaded, an error raised while the image is obtained leaves
    [detect_objects] as status 500. *)
Lemma detect_objects_get_image_error `{Environment} m request w cause :
  get_image request = inl cause ->
  (detect_objects (Some m) request w).1 =
  inl (HTTPException 500 ("Detection failed: " +:+ str cause)).
Proof.
  intros Hget.
  unfold detect_objects, bind, try_except, lift, get_time, raise.
  rewrite Hget. reflexivity.
Qed.

(** C1 (what the code does).  With a model loaded, a request without
    [image_data] and [image_url], a request with only [image_url], and a
    request whose [image_data] fails to decode all end in an
    [HTTPException] of status 500: the status 400 raised inside the [try]
    block is caught by its [except Exception] and wrapped. *)
Theorem detect_objects_client_errors_become_500 `{Environment} (m : YOLO) (w : World)
    (classes : list string) (thresholds : gmap string Q) (nms_iou : Q) :
  (detect_objects (Some m) (mkDetectionRequest None None classes thresholds nms_iou) w).1 =
    inl (HTTPException 500
           ("Detection failed: " +:+
            str (HTTPException 400 "Either image_data or image_url required"))) /\
  (forall c url,
      (detect_objects (Some m)
         (mkDetectionRequest None (Some (String c url)) classes thresholds nms_iou) w).1 =
      inl (HTTPException 500
             ("Detection failed: " +:+
              str (HTTPException 400 "Image URL not supported yet")))) /\
  (forall c s url,
      match decode_image (String c s) with
      | inl cause =>
          (exists detail, cause = HTTPException 400 detail) /\
          (detect_objects (Some m)
             (mkDetectionRequest (Some (String c s)) url classes thresholds nms_iou) w).1 =
          inl (HTTPException 500 ("Detection failed: " +:+ str cause))
      | inr _ => True
      end).
Proof.
  split; [| split].
  - apply detect_objects_get_image_error, get_image_missing.
  - intros c url. apply detect_objects_get_image_error, get_image_url.
  - intros c s url. destruct (decode_image (String c s)) as [cause | img] eqn:Hdec;
      [| exact I].
    split; [eapply decode_image_error_400, Hdec |].
    apply detect_objects_get_image_error. cbn [get_image image_data]. exact Hdec.
Qed.

(** The request with neither image field, on the example model. *)
Example detect_objects_missing_image :
  (detect_objects (env := Fixture.env) (Some Fixture.yolo)
     (mkDetectionRequest None None [] ∅ (45 # 100)) Fixture.world0).1 =
  inl (HTTPException 500
         "Detection failed: 400: Either image_data or image_url required").
Proof. vm_compute. reflexivity. Qed.

(** ** health_check *)

(** C10.  The health response is consistent: [status] is "healthy"
    exactly when [model_loaded] is true, "unhealthy" exactly when it is
    false, nothing else occurs, and [model_loaded] tells whether a model
    handle is present. *)
Theorem health_check_consistent `{Environment} (model : option YOLO) (now : Z) :
  let r := health_check model now in
  (status r = "healthy" <-> model_loaded r = true) /\
  (status r = "unhealthy" <-> model_loaded r = false) /\
  (status r = "healthy" \/ status r = "unhealthy") /\
  (model_loaded r = true <-> is_Some model).
Proof.
  destruct model as [m |]; cbn; repeat split; intros; try done; eauto.
Qed.

(** ** batch_validate *)

Section Batch.
Context {env : Environment}.
Variable model : option YOLO.

(** Whether [detect_objects] raises, and what, does not depend on the
    clock or on the calls made before. *)
Lemma detect_objects_error_indep (request : DetectionRequest) (w w' : World) :
  error_of (detect_objects model request w).1 =
  error_of (detect_objects model request w').1.
Proof.
  unfold detect_objects, bind, try_except, lift, get_time, call_model, raise, ret.
  destruct model as [m |]; [| reflexivity].
  destruct (get_image request) as [e | img_array]; cbn; [reflexivity |].
  destruct (shape img_array) as [[img_height img_width] channels].
  destruct (predict m img_array (conf_floor request) (nms_iou request));
    reflexivity.
Qed.

(** One turn of the loop appends exactly one entry, the record of the
    file, and never raises. *)
Lemma batch_step_spec (results : list BatchEntry) (file : UploadFile) (w : World) :
  exists entry w',
    batch_step model results file w = (inr (results ++ [entry]), w') /\
    entry_of model file entry.
Proof.
  unfold batch_step, try_except, bind, lift, ret, entry_of, file_error, file_outcome.
  destruct (read file) as [e | content] eqn:Hread.
  - exists (Failed (filename file) (str e)), w. split; [reflexivity |].
    split; reflexivity.
  - fold (upload_request content).
    rewrite (detect_objects_error_indep _ initial_world w).
    destruct (detect_objects model (upload_request content) w) as [[e | resp] w'].
    + exists (Failed (filename file) (str e)), w'. split; [reflexivity |].
      split; reflexivity.
    + eexists (Processed (filename file) _ _), w'. split; [reflexivity |].
      split; reflexivity.
Qed.

Lemma batch_loop_spec (files : list UploadFile) (results : list BatchEntry)
    (w : World) :
  exists entries w',
    batch_loop model files results w = (inr (results ++ entries), w') /\
    Forall2 (entry_of model) files entries.
Proof.
  revert results w. induction files as [| file files IH]; intros results w.
  - exists [], w. split; [| constructor].
    cbn [batch_loop]. unfold ret. rewrite app_nil_r. reflexivity.
  - destruct (batch_step_spec results file w) as (entry & w1 & Hstep & Hentry).
    destruct (IH (results ++ [entry]) w1) as (entries & w2 & Hloop & Hall).
    exists (entry :: entries), w2. split; [| constructor; assumption].
    cbn [batch_loop]. unfold bind. rewrite Hstep, Hloop, <- app_assoc. reflexivity.
Qed.

End Batch.

(** C9.  [batch_validate] never raises; its result list has one entry per
    uploaded file, in upload order; the entry of a file carries the file's
    name, and it is a failure carrying the error message exactly when
    processing that file raises, whatever happened to the other files. *)
Theorem batch_validate_isolates_failures `{Environment} (model : option YOLO)
    (files : list UploadFile) (w : World) :
  exists entries,
    (batch_validate model files w).1 = inr entries /\
    length entries = length files /\
    Forall2 (entry_of model) files entries.
Proof.
  destruct (batch_loop_spec model files [] w) as (entries & w' & Hloop & Hall).
  exists entries. unfold batch_validate. rewrite Hloop.
  split; [reflexivity | split; [| exact Hall]].
  symmetry. eapply Forall2_length, Hall.
Qed.

(** Three files, the second corrupt: three entries in upload order, the
    second one the only failure. *)
Example batch_validate_three_files :
  (batch_validate (env := Fixture.env) (Some Fixture.yolo)
     [Fixture.good_file; Fixture.corrupt_file; Fixture.other_file] Fixture.world0).1 =
  inr [ Processed "a.png" 2 1000;
        Failed "b.png"
          "500: Detection failed: 400: Invalid image data: cannot identify image file";
        Processed "c.png" 2 1000 ].
Proof. vm_compute. reflexivity. Qed.


(** * Part III: further properties of the code *)

(** ** filter_detections *)

Lemma raw_detections_app (rs1 rs2 : list Results) :
  raw_detections (rs1 ++ rs2) = raw_detections rs1 ++ raw_detections rs2.
Proof. unfold raw_detections. apply bind_app. Qed.

(** The output for a list of per-image results is the concatenation of the
    outputs for its parts: each [Results] is filtered on its own, and a
    [Results] whose [boxes] is [None] contributes nothing. *)
Theorem filter_detections_app `{Environment} (rs1 rs2 : list Results)
    (classes : list string) (thresholds : gmap string Q) (w h : Z) :
  filter_detections (rs1 ++ rs2) classes thresholds w h =
  filter_detections rs1 classes thresholds w h ++
  filter_detections rs2 classes thresholds w h.
Proof.
  rewrite !filter_detections_lists, raw_detections_app, omap_app. reflexivity.
Qed.

(** Where an emitted detection comes from. *)
Lemma elem_of_filter_detections `{Environment} results classes thresholds w h d :
  d ∈ filter_detections results classes thresholds w h <->
  exists box c class_id name,
    (box, c, class_id) ∈ raw_detections results /\
    YOLO_TO_VY_CLASSES !! class_id = Some name /\
    (classes <> [] -> name ∈ classes) /\
    ~ (float32 c < float32 (effective_threshold thresholds name))%Q /\
    d = mkDetection name c (normalize_bbox box w h).
Proof.
  rewrite filter_detections_lists. cbn [app]. rewrite list_elem_of_omap. split.
  - intros ([[box c] class_id] & Hin & Hemit).
    apply spec_emit_Some in Hemit as (name & Hname & Hallow & Hconf & ->).
    exists box, c, class_id, name. repeat split; assumption.
  - intros (box & c & class_id & name & Hin & Hname & Hallow & Hconf & ->).
    exists (box, c, class_id). split; [exact Hin |].
    apply spec_emit_Some. exists name. repeat split; assumption.
Qed.

(** With a non-empty allowlist, no emitted detection has a class name
    outside it, whatever the model produced. *)
Theorem filter_detections_allowlist `{Environment} (results : list Results)
    (classes : list string) (thresholds : gmap string Q) (w h : Z) (d : Detection) :
  classes <> [] ->
  d ∈ filter_detections results classes thresholds w h ->
  class_name d ∈ classes.
Proof.
  intros Hne Hd.
  apply elem_of_filter_detections in Hd
    as (box & c & class_id & name & _ & _ & Hallow & _ & ->).
  apply Hallow, Hne.
Qed.

Lemma filter_detections_allowlist_witness :
  class_name (mkDetection "car" (6 # 10) (normalize_bbox (10, 20, 50, 60)%Q 100 100)) ∈
  ["car"; "person"].
Proof.
  apply (@filter_detections_allowlist Fixture.env
           [mkResults (Some Fixture.boxes1)] ["car"; "person"] ∅ 100 100).
  - discriminate.
  - vm_compute. apply list_elem_of_In. left. reflexivity.
Defined.

(** Every emitted class name is one of the six application names, and the
    emitted confidence is not below the threshold in force for that name
    when the two are compared as float32 values, which is how the code
    compares them. *)
Theorem filter_detections_sound `{Environment} (results : list Results)
    (classes : list string) (thresholds : gmap string Q) (w h : Z) (d : Detection) :
  d ∈ filter_detections results classes thresholds w h ->
  class_name d ∈ vocabulary /\
  (float32 (default CONFIDENCE_THRESHOLD (thresholds !! class_name d)) <=
   float32 (confidence d))%Q.
Proof.
  intros Hd.
  apply elem_of_filter_detections in Hd
    as (box & c & class_id & name & _ & Hname & _ & Hconf & ->).
  cbn [class_name confidence]. split.
  - apply YOLO_TO_VY_CLASSES_entries in Hname. unfold vocabulary.
    repeat (apply elem_of_cons in Hname as [Heq | Hname];
            [injection Heq as -> ->; apply list_elem_of_In; cbn; tauto |]).
    apply elem_of_nil in Hname. contradiction.
  - rewrite get_threshold. apply Qnot_lt_le, Hconf.
Qed.

Lemma filter_detections_sound_witness :
  let d := mkDetection "truck" (9 # 10) (normalize_bbox (0, 0, 100, 100)%Q 100 100) in
  class_name d ∈ vocabulary /\
  (float32 (default (CONFIDENCE_THRESHOLD (Environment := Fixture.env))
                    ((∅ : gmap string Q) !! class_name d)) <=
   float32 (confidence d))%Q.
Proof.
  apply (@filter_detections_sound Fixture.env
           [mkResults (Some Fixture.boxes1)] [] ∅ 100 100).
  vm_compute. apply list_elem_of_In. right. left. reflexivity.
Defined.

Lemma omap_guard {A B} (f g : A -> option B) (P : B -> Prop)
    `{forall b, Decision (P b)} (l : list A) :
  (forall a, f a = match g a with
                   | Some b => if decide (P b) then Some b else None
                   | None => None
                   end) ->
  omap f l = filter P (omap g l).
Proof.
  intros Hfg. induction l as [| a l IH]; [reflexivity |].
  cbn [omap list_omap]. rewrite (Hfg a). destruct (g a) as [b |]; [| exact IH].
  rewrite filter_cons. destruct (decide (P b)); rewrite IH; reflexivity.
Qed.

(** A non-empty allowlist acts as a filter on the unrestricted output:
    asking for [classes] gives the detections of the request without an
    allowlist whose class name is in [classes], in the same order. *)
Theorem filter_detections_allowlist_restricts `{Environment} (results : list Results)
    (classes : list string) (thresholds : gmap string Q) (w h : Z) :
  classes <> [] ->
  filter_detections results classes thresholds w h =
  filter (fun d => class_name d ∈ classes)
         (filter_detections results [] thresholds w h).
Proof.
  intros Hne. rewrite !filter_detections_lists. cbn [app].
  apply omap_guard. intros [[box c] class_id]. unfold spec_emit.
  destruct (YOLO_TO_VY_CLASSES !! class_id) as [name |]; [| reflexivity].
  destruct (decide (spec_kept [] thresholds name c)) as [[_ Hconf] | Hno].
  - cbn [class_name].
    destruct (decide (name ∈ classes)) as [Hin | Hout].
    + rewrite decide_True; [reflexivity | split; [intros _; exact Hin | exact Hconf]].
    + rewrite decide_False; [reflexivity | intros [Hallow _]; apply Hout, Hallow, Hne].
  - rewrite decide_False; [reflexivity |].
    intros [_ Hconf]. apply Hno. split; [intros Hnil; contradiction | exact Hconf].
Qed.

Lemma filter_detections_allowlist_restricts_witness :
  filter_detections (env := Fixture.env) [mkResults (Some Fixture.boxes1)]
                    ["truck"] ∅ 100 100 =
  filter (fun d => class_name d ∈ ["truck"])
         (filter_detections (env := Fixture.env) [mkResults (Some Fixture.boxes1)]
                            [] ∅ 100 100).
Proof.
  apply (@filter_detections_allowlist_restricts Fixture.env). discriminate.
Defined.

(** The filter invents nothing and keeps the order: the emitted
    confidences are a subsequence of the confidences the model produced. *)
Theorem filter_detections_subsequence `{Environment} (results : list Results)
    (classes : list string) (thresholds : gmap string Q) (w h : Z) :
  (confidence <$> filter_detections results classes thresholds w h)
    `sublist_of` ((fun raw : RawDetection => raw.1.2) <$> raw_detections results).
Proof.
  rewrite filter_detections_lists. cbn [app].
  induction (raw_detections results) as [| [[box c] class_id] raws IH];
    [constructor |].
  cbn [omap list_omap fmap list_fmap].
  destruct (spec_emit classes thresholds w h (box, c, class_id)) as [d |] eqn:Hemit.
  - apply spec_emit_Some in Hemit as (name & _ & _ & _ & ->).
    cbn. apply sublist_skip, IH.
  - cbn. apply sublist_cons, IH.
Qed.

(** ** normalize_bbox *)

(** Scaling the normalised box back by the image dimensions recovers the
    pixel corners: nothing is lost by normalising. *)
Theorem normalize_bbox_recovers_corners (W H : Z) (x1 y1 x2 y2 : Q) :
  W <> 0 -> H <> 0 ->
  let b := normalize_bbox (x1, y1, x2, y2) W H in
  (x b * inject_Z W == x1)%Q /\
  (y b * inject_Z H == y1)%Q /\
  ((x b + width b) * inject_Z W == x2)%Q /\
  ((y b + height b) * inject_Z H == y2)%Q.
Proof.
  intros HW HH b. subst b. cbn [normalize_bbox x y width height].
  assert (HWq : ~ (inject_Z W == 0)%Q).
  { intros Heq. apply HW. unfold Qeq in Heq. simpl in Heq. lia. }
  assert (HHq : ~ (inject_Z H == 0)%Q).
  { intros Heq. apply HH. unfold Qeq in Heq. simpl in Heq. lia. }
  repeat split; field; assumption.
Qed.

Lemma normalize_bbox_recovers_corners_witness :
  let b := normalize_bbox (10, 20, 50, 60)%Q 640 480 in
  (x b * inject_Z 640 == 10)%Q /\
  (y b * inject_Z 480 == 20)%Q /\
  ((x b + width b) * inject_Z 640 == 50)%Q /\
  ((y b + height b) * inject_Z 480 == 60)%Q.
Proof. apply (normalize_bbox_recovers_corners 640 480 10 20 50 60); discriminate. Defined.

(** In exact arithmetic and for a positive image size, the box stays
    within the right and bottom edges exactly when its second corner does,
    and its extent is not negative exactly when the corners are in order.
    (With rounded operations [x + width] can exceed 1 in the last place
    although [x2 <= W]; see [normalize_bbox_rounded_sum].) *)
Theorem normalize_bbox_edges (W H : Z) (x1 y1 x2 y2 : Q) :
  0 < W -> 0 < H ->
  let b := normalize_bbox (x1, y1, x2, y2) W H in
  ((x b + width b <= 1)%Q <-> (x2 <= inject_Z W)%Q) /\
  ((y b + height b <= 1)%Q <-> (y2 <= inject_Z H)%Q) /\
  ((0 <= width b)%Q <-> (x1 <= x2)%Q) /\
  ((0 <= height b)%Q <-> (y1 <= y2)%Q).
Proof.
  intros HW HH b.
  destruct (normalize_bbox_sum W H HW HH x1 y1 x2 y2) as [Hsx Hsy].
  fold b in Hsx, Hsy.
  pose proof (inject_Z_pos _ HW) as HWq. pose proof (inject_Z_pos _ HH) as HHq.
  assert (Hle1 : forall a d : Q, (0 < d)%Q -> ((a / d <= 1)%Q <-> (a <= d)%Q)).
  { intros a d Hd. assert (Hmul : (a / d * d == a)%Q) by (field; lra). split.
    - intros Hq. assert (Hx : (a / d * d <= 1 * d)%Q)
        by (apply Qmult_le_compat_r; lra).
      rewrite Hmul in Hx. lra.
    - intros Hq. apply Qle_shift_div_r; [exact Hd | lra]. }
  assert (Hge0 : forall a d : Q, (0 < d)%Q -> ((0 <= a / d)%Q <-> (0 <= a)%Q)).
  { intros a d Hd. assert (Hmul : (a / d * d == a)%Q) by (field; lra). split.
    - intros Hq. assert (Hx : (0 <= a / d * d)%Q)
        by (apply Qmult_le_0_compat; lra).
      rewrite Hmul in Hx. exact Hx.
    - intros Hq. apply Qle_shift_div_l; [exact Hd | lra]. }
  split; [| split; [| split]].
  - rewrite Hsx. apply Hle1, HWq.
  - rewrite Hsy. apply Hle1, HHq.
  - subst b. cbn [normalize_bbox width]. rewrite (Hge0 _ _ HWq). split; intros; lra.
  - subst b. cbn [normalize_bbox height]. rewrite (Hge0 _ _ HHq). split; intros; lra.
Qed.

(** The float32 of 1/3 plus the float32 of 2/3 is above 1. *)
Example normalize_bbox_rounded_sum :
  let b := normalize_bbox_rounded float32 (100, 0, 300, 10)%Q 300 10 in
  (1 < x b + width b)%Q.
Proof. vm_compute. reflexivity. Qed.

Lemma normalize_bbox_edges_witness :
  let b := normalize_bbox (90, 0, 110, 50)%Q 100 100 in
  ((x b + width b <= 1)%Q <-> (110 <= inject_Z 100)%Q) /\
  ((y b + height b <= 1)%Q <-> (50 <= inject_Z 100)%Q) /\
  ((0 <= width b)%Q <-> (90 <= 110)%Q) /\
  ((0 <= height b)%Q <-> (0 <= 50)%Q).
Proof. apply (normalize_bbox_edges 100 100 90 0 110 50); reflexivity. Defined.

(** ** decode_image *)

Lemma prefix_append (q p r : string) :
  String.prefix q p = true -> String.prefix q (p +:+ r) = true.
Proof.
  revert p. induction q as [| a q IH]; intros p Hp.
  - destruct (p +:+ r); reflexivity.
  - destruct p as [| b p]; [discriminate Hp |].
    simpl in *. destruct (ascii_dec a b); [apply IH, Hp | discriminate Hp].
Qed.

Lemma append_empty_r (s : string) : s +:+ EmptyString = s.
Proof.
  induction s as [| c s IH]; [reflexivity |].
  change (String c (s +:+ EmptyString) = String c s). rewrite IH. reflexivity.
Qed.

(** Every piece of [split] is free of commas, there is one more piece than
    there are commas, and joining the pieces with commas gives the string
    back. *)
Lemma split_join (s : string) :
  join comma (split comma s) = s /\
  Forall (fun piece => has_comma piece = false) (split comma s) /\
  length (split comma s) = S (count_commas s).
Proof.
  induction s as [| c s (Hjoin & Hfree & Hlen)];
    [repeat split; repeat constructor |].
  cbn [split count_commas].
  destruct (split comma s) as [| piece pieces] eqn:Hsplit; [discriminate Hlen |].
  destruct (Ascii.eqb c comma) eqn:Hc.
  - apply Ascii.eqb_eq in Hc. subst c. repeat split.
    + change (join comma (EmptyString :: piece :: pieces))
        with (String comma (join comma (piece :: pieces))).
      rewrite Hjoin. reflexivity.
    + constructor; [reflexivity | exact Hfree].
    + cbn [length]. cbn [length] in Hlen. rewrite Hlen. reflexivity.
  - inversion Hfree as [| ? ? Hhd Htl]; subst. repeat split.
    + destruct pieces; reflexivity.
    + constructor; [cbn [has_comma]; rewrite Hc, Hhd; reflexivity | exact Htl].
    + exact Hlen.
Qed.

(** A data URL without a comma is rejected with status 400 before anything
    is base64-decoded: [split(",")[1]] raises [IndexError]. *)
Theorem decode_image_data_url_without_comma `{Environment} (image_data : string) :
  startswith image_data "data:image" = true ->
  has_comma image_data = false ->
  decode_image image_data =
  inl (HTTPException 400 "Invalid image data: list index out of range").
Proof.
  intros Hstart Hfree. unfold decode_image, payload_of.
  rewrite Hstart, (split_no_comma _ Hfree). reflexivity.
Qed.

Lemma decode_image_data_url_without_comma_witness :
  decode_image (env := Fixture.env) "data:image/png;base64" =
  inl (HTTPException 400 "Invalid image data: list index out of range").
Proof.
  apply (@decode_image_data_url_without_comma Fixture.env "data:image/png;base64");
    reflexivity.
Defined.

(** In a data URL only the text between the first and the second comma is
    decoded: whatever follows a second comma is ignored. *)
Theorem decode_image_ignores_second_comma `{Environment} (head payload rest : string) :
  startswith head "data:image" = true ->
  has_comma head = false ->
  has_comma payload = false ->
  payload_of (head +:+ String comma (payload +:+ String comma rest)) = inr payload /\
  decode_image (head +:+ String comma (payload +:+ String comma rest)) =
  decode_image (head +:+ String comma payload).
Proof.
  intros Hstart Hhead Hpay.
  assert (Hlong : payload_of (head +:+ String comma (payload +:+ String comma rest)) =
                  inr payload).
  { unfold payload_of, startswith. rewrite (prefix_append _ _ _ Hstart).
    rewrite (split_app head) by exact Hhead. cbn [split]. rewrite Ascii.eqb_refl.
    cbn [hd tail]. rewrite (split_app payload) by exact Hpay.
    cbn [split]. rewrite Ascii.eqb_refl. cbn [hd tail].
    rewrite !append_empty_r. reflexivity. }
  assert (Hshort : payload_of (head +:+ String comma payload) = inr payload).
  { unfold payload_of, startswith. rewrite (prefix_append _ _ _ Hstart).
    rewrite (split_app head) by exact Hhead. cbn [split]. rewrite Ascii.eqb_refl.
    cbn [hd tail]. rewrite (split_no_comma _ Hpay). reflexivity. }
  split; [exact Hlong |].
  unfold decode_image. rewrite Hlong, Hshort. reflexivity.
Qed.

Lemma decode_image_ignores_second_comma_witness :
  payload_of ("data:image/png;base64" +:+ String comma ("AAAA" +:+ String comma "BBBB")) =
    inr "AAAA" /\
  decode_image (env := Fixture.env)
    ("data:image/png;base64" +:+ String comma ("AAAA" +:+ String comma "BBBB")) =
  decode_image (env := Fixture.env) ("data:image/png;base64" +:+ String comma "AAAA").
Proof.
  apply (@decode_image_ignores_second_comma Fixture.env
           "data:image/png;base64" "AAAA" "BBBB"); reflexivity.
Defined.

(** Whatever goes wrong while decoding (the prefix, base64, the image
    bytes, the conversion), the caller of [decode_image] sees an
    [HTTPException] of status 400 whose detail is the text
    [Invalid image data: ] followed by the message of the cause. *)
Theorem decode_image_failure `{Environment} (image_data : string) :
  match decode_image image_data with
  | inl e => exists cause, e = HTTPException 400 ("Invalid image data: " +:+ str cause)
  | inr _ => True
  end.
Proof.
  unfold decode_image.
  destruct (try_bind (payload_of image_data) _) as [cause | img]; [| exact I].
  exists cause. reflexivity.
Qed.

(** ** detect_objects *)

(** The three ways [detect_objects] ends with a model loaded, with the
    world each leaves behind. *)
Lemma detect_objects_loaded `{Environment} (m : YOLO) (request : DetectionRequest)
    (w : World) :
  detect_objects (Some m) request w =
  match get_image request with
  | inl cause =>
      (inl (HTTPException 500 ("Detection failed: " +:+ str cause)), advanced w 1 [])
  | inr img_array =>
      let call := mkInvocation img_array (conf_floor request) (nms_iou request) in
      match predict m img_array (conf_floor request) (nms_iou request) with
      | inl cause =>
          (inl (HTTPException 500 ("Detection failed: " +:+ str cause)),
           advanced w 1 [call])
      | inr results =>
          (inr {| detections :=
                    filter_detections results (classes request) (thresholds request)
                                      (shape img_array).1.2 (shape img_array).1.1;
                  processing_time_ms :=
                    (loop_time (S (clock_reads w)) - loop_time (clock_reads w)) * 1000;
                  image_size := ((shape img_array).1.2, (shape img_array).1.1);
                  model_info := {| model_name := "YOLOv8"; device := DEVICE;
                                   num_classes := 10 |} |},
           advanced w 2 [call])
      end
  end.
Proof.
  unfold detect_objects, bind, try_except, lift, get_time, call_model, raise, ret,
    advanced.
  destruct (get_image request) as [cause | img_array]; cbn.
  - rewrite app_nil_r, Nat.add_1_r. reflexivity.
  - destruct (shape img_array) as [[img_height img_width] channels].
    destruct (predict m img_array (conf_floor request) (nms_iou request)); cbn.
    + rewrite Nat.add_1_r. reflexivity.
    + replace (clock_reads w + 2)%nat with (S (S (clock_reads w))) by lia.
      reflexivity.
Qed.

(** What [detect_objects] can answer.  Without a model it raises status 503
    and touches nothing: no clock reading, no decoding, no model call.  With
    a model, every failure, whatever its cause, is an [HTTPException] of
    status 500: no other status and no other exception leaves the handler. *)
Theorem detect_objects_outcomes `{Environment} (model : option YOLO)
    (request : DetectionRequest) (w : World) :
  match model with
  | None =>
      detect_objects model request w = (inl (HTTPException 503 "Model not loaded"), w)
  | Some _ =>
      match (detect_objects model request w).1 with
      | inl e => exists cause, e = HTTPException 500 ("Detection failed: " +:+ str cause)
      | inr _ => True
      end
  end.
Proof.
  destruct model as [m |]; [| reflexivity].
  rewrite detect_objects_loaded.
  destruct (get_image request) as [cause | img_array]; cbn.
  - exists cause. reflexivity.
  - destruct (predict m img_array (conf_floor request) (nms_iou request))
      as [cause | results]; cbn; [exists cause; reflexivity | exact I].
Qed.

(** A successful response echoes the decoded image's size as
    [(width, height)], carries the filtered output of the one model call
    made with the confidence floor and the request's IoU, reports the time
    between the two clock readings in milliseconds, and counts ten mapped
    classes. *)
Theorem detect_objects_success `{Environment} (m : YOLO) (request : DetectionRequest)
    (w w' : World) (response : DetectionResponse) :
  detect_objects (Some m) request w = (inr response, w') ->
  exists img_array results,
    get_image request = inr img_array /\
    predict m img_array (conf_floor request) (nms_iou request) = inr results /\
    detections response =
      filter_detections results (classes request) (thresholds request)
                        (shape img_array).1.2 (shape img_array).1.1 /\
    image_size response = ((shape img_array).1.2, (shape img_array).1.1) /\
    processing_time_ms response =
      ((loop_time (S (clock_reads w)) - loop_time (clock_reads w)) * 1000)%Q /\
    num_classes (model_info response) = 10%nat /\
    w' = advanced w 2 [mkInvocation img_array (conf_floor request) (nms_iou request)].
Proof.
  rewrite detect_objects_loaded.
  destruct (get_image request) as [cause | img_array] eqn:Himg; [discriminate |].
  cbn zeta.
  destruct (predict m img_array (conf_floor request) (nms_iou request))
    as [cause | results] eqn:Hcall; [discriminate |].
  intros [= <- <-]. exists img_array, results. repeat split; assumption || reflexivity.
Qed.

Lemma detect_objects_success_witness :
  exists img_array results,
    get_image (env := Fixture.env) Fixture.request0 = inr img_array /\
    predict Fixture.yolo img_array (conf_floor (env := Fixture.env) Fixture.request0)
            (nms_iou Fixture.request0) = inr results.
Proof.
  edestruct (@detect_objects_success Fixture.env Fixture.yolo Fixture.request0
               Fixture.world0)
    as (img_array & results & Himg & Hcall & _).
  - vm_compute. reflexivity.
  - exists img_array, results. split; [exact Himg | exact Hcall].
Defined.

(** A non-empty [image_data] wins: [image_url] is then ignored.  An empty
    string counts as absent, for [image_data] and for [image_url]. *)
Theorem detect_objects_image_fields `{Environment} (model : option YOLO) (w : World)
    (url : option string) (classes : list string) (thresholds : gmap string Q)
    (nms_iou : Q) :
  (forall c s,
      detect_objects model
        (mkDetectionRequest (Some (String c s)) url classes thresholds nms_iou) w =
      detect_objects model
        (mkDetectionRequest (Some (String c s)) None classes thresholds nms_iou) w) /\
  detect_objects model
    (mkDetectionRequest (Some EmptyString) url classes thresholds nms_iou) w =
  detect_objects model (mkDetectionRequest None url classes thresholds nms_iou) w /\
  detect_objects model
    (mkDetectionRequest None (Some EmptyString) classes thresholds nms_iou) w =
  detect_objects model (mkDetectionRequest None None classes thresholds nms_iou) w.
Proof.
  destruct model as [m |]; [| repeat split; reflexivity].
  repeat split; intros; rewrite !detect_objects_loaded; reflexivity.
Qed.

(** When the model call itself raises, the handler answers status 500 with
    the model's message, after exactly one clock reading and that one
    call. *)
Theorem detect_objects_model_failure `{Environment} (m : YOLO)
    (request : DetectionRequest) (w : World) (img_array : ndarray) (cause : Exception) :
  get_image request = inr img_array ->
  predict m img_array (conf_floor request) (nms_iou request) = inl cause ->
  detect_objects (Some m) request w =
  (inl (HTTPException 500 ("Detection failed: " +:+ str cause)),
   advanced w 1 [mkInvocation img_array (conf_floor request) (nms_iou request)]).
Proof.
  intros Himg Hcall. rewrite detect_objects_loaded, Himg. cbn zeta.
  rewrite Hcall. reflexivity.
Qed.

Lemma detect_objects_model_failure_witness :
  detect_objects (env := Fixture.env) (Some Scenario.broken_yolo) Fixture.request0
                 Fixture.world0 =
  (inl (HTTPException 500 "Detection failed: CUDA out of memory"),
   advanced Fixture.world0 1
     [mkInvocation {| shape := (100, 100, 3); pixels := [] |}
                   (conf_floor (env := Fixture.env) Fixture.request0)
                   (nms_iou Fixture.request0)]).
Proof.
  apply (@detect_objects_model_failure Fixture.env Scenario.broken_yolo
           Fixture.request0 Fixture.world0
           {| shape := (100, 100, 3); pixels := [] |} (Error "CUDA out of memory"));
    reflexivity.
Defined.

(** With a clock that never goes back, the reported processing time is
    not negative. *)
Theorem detect_objects_time_nonneg `{Environment} (m : YOLO)
    (request : DetectionRequest) (w w' : World) (response : DetectionResponse) :
  clock_monotone ->
  detect_objects (Some m) request w = (inr response, w') ->
  (0 <= processing_time_ms response)%Q.
Proof.
  intros Hmono Hrun. rewrite detect_objects_loaded in Hrun.
  destruct (get_image request) as [cause | img_array]; [discriminate |].
  cbn zeta in Hrun.
  destruct (predict m img_array (conf_floor request) (nms_iou request))
    as [cause | results]; [discriminate |].
  injection Hrun as <- _. cbn [processing_time_ms].
  pose proof (Hmono (clock_reads w) (S (clock_reads w)) (Nat.le_succ_diag_r _)) as Hle.
  apply Qmult_le_0_compat; lra.
Qed.

Lemma fixture_clock_monotone : clock_monotone (H := Fixture.env).
Proof.
  intros i j Hij. cbn. rewrite <- Zle_Qle. lia.
Qed.

Lemma detect_objects_time_nonneg_witness :
  exists response w',
    detect_objects (env := Fixture.env) (Some Fixture.yolo) Fixture.request0
                   Fixture.world0 = (inr response, w') /\
    (0 <= processing_time_ms response)%Q.
Proof.
  eexists _, _. split.
  - vm_compute. reflexivity.
  - eapply (@detect_objects_time_nonneg Fixture.env Fixture.yolo Fixture.request0
              Fixture.world0).
    + exact fixture_clock_monotone.
    + vm_compute. reflexivity.
Defined.

(** ** The confidence floor against the per-class thresholds *)

(** The floor given to the model never exceeds the threshold of a class
    the caller set a threshold for, so the model does not suppress what
    the filter would keep for such a class; without any caller threshold
    the floor is the threshold of every class. *)
Theorem conf_floor_below_overrides `{Environment} (request : DetectionRequest) :
  (forall name t,
      thresholds request !! name = Some t ->
      (conf_floor request <= effective_threshold (thresholds request) name)%Q) /\
  (thresholds request = ∅ ->
   forall name, conf_floor request = effective_threshold (thresholds request) name).
Proof.
  split.
  - intros name t Hname. unfold effective_threshold. rewrite Hname.
    assert (Hne : thresholds request <> ∅).
    { intros Hempty. rewrite Hempty, lookup_empty in Hname. discriminate Hname. }
    destruct (conf_floor_minimum request Hne) as [_ Hmin]. apply (Hmin name), Hname.
  - intros Hempty name. rewrite (conf_floor_empty request Hempty).
    unfold effective_threshold. rewrite Hempty, lookup_empty. reflexivity.
Qed.

Lemma conf_floor_below_overrides_witness :
  (conf_floor (env := Fixture.env) Fixture.request0 <=
   effective_threshold (env := Fixture.env) (thresholds Fixture.request0) "car")%Q.
Proof.
  apply (proj1 (@conf_floor_below_overrides Fixture.env Fixture.request0) "car" (7 # 10)).
  vm_compute. reflexivity.
Defined.

(** For a class without a caller threshold it is the other way round when
    all caller thresholds are above the default: the floor given to the
    model is then stricter than the threshold the filter applies to that
    class. *)
Theorem conf_floor_above_default `{Environment} (request : DetectionRequest)
    (name : string) :
  thresholds request <> ∅ ->
  (forall k t, thresholds request !! k = Some t -> (CONFIDENCE_THRESHOLD < t)%Q) ->
  thresholds request !! name = None ->
  (effective_threshold (thresholds request) name < conf_floor request)%Q.
Proof.
  intros Hne Habove Hname. unfold effective_threshold. rewrite Hname.
  destruct (conf_floor_minimum request Hne) as [[k Hk] _].
  apply (Habove k), Hk.
Qed.

Lemma conf_floor_above_default_witness :
  (effective_threshold (env := Fixture.env) (thresholds Fixture.request0) "person" <
   conf_floor (env := Fixture.env) Fixture.request0)%Q.
Proof.
  apply (@conf_floor_above_default Fixture.env Fixture.request0 "person").
  - intros Hempty. apply (f_equal (fun t => t !! "car")) in Hempty.
    rewrite lookup_empty in Hempty. vm_compute in Hempty. discriminate Hempty.
  - intros k t Hk. cbn [thresholds Fixture.request0] in Hk.
    apply lookup_singleton_Some in Hk as [_ <-]. reflexivity.
  - vm_compute. reflexivity.
Defined.

(** ** batch_validate *)

Lemma advanced_0 (w : World) : advanced w 0 [] = w.
Proof.
  destruct w as [n calls]. unfold advanced. cbn.
  rewrite Nat.add_0_r, app_nil_r. reflexivity.
Qed.

Lemma advanced_advanced (w : World) (k1 k2 : nat) (c1 c2 : list Invocation) :
  advanced (advanced w k1 c1) k2 c2 = advanced w (k1 + k2) (c1 ++ c2).
Proof. unfold advanced. cbn. rewrite Nat.add_assoc, app_assoc. reflexivity. Qed.

Section BatchMore.
Context {env : Environment}.
Variable model : option YOLO.

(** What a handler run adds to the world: at most two clock readings and
    at most one model call, after everything recorded before. *)
Lemma detect_objects_world (request : DetectionRequest) (w : World) :
  exists reads calls,
    (detect_objects model request w).2 = advanced w reads calls /\
    (reads <= 2)%nat /\ (length calls <= 1)%nat.
Proof.
  destruct model as [m |].
  - rewrite detect_objects_loaded.
    destruct (get_image request) as [cause | img_array]; cbn zeta.
    + exists 1%nat, []. cbn. repeat split; lia.
    + destruct (predict m img_array (conf_floor request) (nms_iou request)).
      * eexists 1%nat, [_]. cbn. repeat split; lia.
      * eexists 2%nat, [_]. cbn. repeat split; lia.
  - exists 0%nat, []. cbn. rewrite advanced_0. repeat split; lia.
Qed.

(** One turn of the loop: the entry it appends and the world it leaves do
    not depend on the entries collected so far. *)
Lemma batch_step_uniform (file : UploadFile) (w : World) :
  exists entry reads calls,
    (reads <= 2)%nat /\ (length calls <= 1)%nat /\
    forall results,
      batch_step model results file w =
      (inr (results ++ [entry]), advanced w reads calls).
Proof.
  unfold batch_step, try_except, bind, lift, ret.
  destruct (read file) as [e | content].
  - exists (Failed (filename file) (str e)), 0%nat, [].
    split; [lia | split; [cbn; lia |]].
    intros results. rewrite advanced_0. reflexivity.
  - fold (upload_request content).
    destruct (detect_objects_world (upload_request content) w)
      as (reads & calls & Hworld & Hreads & Hcalls).
    destruct (detect_objects model (upload_request content) w) as [[e | resp] w'];
      cbn [snd] in Hworld; subst w'.
    + exists (Failed (filename file) (str e)), reads, calls.
      split; [assumption | split; [assumption | reflexivity]].
    + exists (Processed (filename file) (length (detections resp))
                        (processing_time_ms resp)), reads, calls.
      split; [assumption | split; [assumption | reflexivity]].
Qed.

Lemma batch_loop_uniform (files : list UploadFile) (w : World) :
  exists entries reads calls,
    (reads <= 2 * length files)%nat /\ (length calls <= length files)%nat /\
    forall results,
      batch_loop model files results w =
      (inr (results ++ entries), advanced w reads calls).
Proof.
  revert w. induction files as [| file files IH]; intros w.
  - exists [], 0%nat, []. split; [cbn; lia | split; [cbn; lia |]].
    intros results. cbn [batch_loop]. unfold ret.
    rewrite app_nil_r, advanced_0. reflexivity.
  - destruct (batch_step_uniform file w) as (entry & r1 & c1 & Hr1 & Hc1 & Hstep).
    destruct (IH (advanced w r1 c1)) as (entries & r2 & c2 & Hr2 & Hc2 & Hloop).
    exists (entry :: entries), (r1 + r2)%nat, (c1 ++ c2).
    split; [cbn [length]; lia | split; [rewrite length_app; cbn [length]; lia |]].
    intros results. cbn [batch_loop]. unfold bind.
    rewrite Hstep, Hloop, advanced_advanced, <- app_assoc. reflexivity.
Qed.

Lemma batch_loop_app (fs1 fs2 : list UploadFile) (results : list BatchEntry)
    (w : World) :
  batch_loop model (fs1 ++ fs2) results w =
  bind (batch_loop model fs1 results) (batch_loop model fs2) w.
Proof.
  revert results w. induction fs1 as [| file fs1 IH]; intros results w.
  - reflexivity.
  - cbn [app batch_loop]. unfold bind at 1 2 3.
    destruct (batch_step model results file w) as [[e | results'] w'];
      [reflexivity |].
    rewrite IH. reflexivity.
Qed.

End BatchMore.

(** A batch adds at most two clock readings and at most one model call per
    file to the world, and leaves what was recorded before in place. *)
Theorem batch_validate_bounded `{Environment} (model : option YOLO)
    (files : list UploadFile) (w : World) :
  exists reads calls,
    (batch_validate model files w).2 = advanced w reads calls /\
    (reads <= 2 * length files)%nat /\
    (length calls <= length files)%nat.
Proof.
  destruct (batch_loop_uniform model files w)
    as (entries & reads & calls & Hreads & Hcalls & Hloop).
  exists reads, calls. unfold batch_validate. rewrite Hloop.
  repeat split; assumption.
Qed.

(** Validating two lists of files one after the other, the second from the
    world the first left, gives the same entries as validating them as
    one upload. *)
Theorem batch_validate_app `{Environment} (model : option YOLO)
    (fs1 fs2 : list UploadFile) (w : World) :
  exists entries1 w1 entries2 w2,
    batch_validate model fs1 w = (inr entries1, w1) /\
    batch_validate model fs2 w1 = (inr entries2, w2) /\
    batch_validate model (fs1 ++ fs2) w = (inr (entries1 ++ entries2), w2).
Proof.
  destruct (batch_loop_uniform model fs1 w) as (e1 & r1 & c1 & _ & _ & Hloop1).
  destruct (batch_loop_uniform model fs2 (advanced w r1 c1))
    as (e2 & r2 & c2 & _ & _ & Hloop2).
  exists e1, (advanced w r1 c1), e2, (advanced (advanced w r1 c1) r2 c2).
  unfold batch_validate. rewrite batch_loop_app. unfold bind.
  rewrite !Hloop1, !Hloop2. repeat split; reflexivity.
Qed.

Lemma batch_loop_not_loaded `{Environment} (files : list UploadFile)
    (results : list BatchEntry) (w : World) :
  batch_loop None files results w =
  (inr (results ++ (not_loaded_entry <$> files)), w).
Proof.
  revert results. induction files as [| file files IH]; intros results.
  - cbn. unfold ret. rewrite app_nil_r. reflexivity.
  - cbn [batch_loop fmap list_fmap]. unfold bind, batch_step, try_except, lift, ret.
    unfold not_loaded_entry at 1.
    destruct (read file) as [e | content]; cbn; rewrite IH, <- app_assoc; reflexivity.
Qed.

(** Without a model the batch still answers: every file gets a failure
    entry, carrying the read error if the file could not be read and the
    status-503 message otherwise, and the world is left as it was. *)
Theorem batch_validate_not_loaded `{Environment} (files : list UploadFile) (w : World) :
  batch_validate None files w = (inr (not_loaded_entry <$> files), w).
Proof. unfold batch_validate. rewrite batch_loop_not_loaded. reflexivity. Qed.

(** An empty upload encodes to the empty string, which [detect_objects]
    takes for a missing image: the entry is a failure whose message speaks
    of [image_data] or [image_url] being required, and the model is not
    called. *)
Theorem batch_validate_empty_file `{Environment} (m : YOLO) (file : UploadFile)
    (w : World) :
  b64encode [] = EmptyString ->
  read file = inr [] ->
  batch_validate (Some m) [file] w =
  (inr [Failed (filename file)
          (str (HTTPException 500
                  ("Detection failed: " +:+
                   str (HTTPException 400 "Either image_data or image_url required"))))],
   advanced w 1 []).
Proof.
  intros Hencode Hread.
  unfold batch_validate. cbn [batch_loop].
  unfold bind at 1. unfold batch_step, try_except, bind, lift, ret. rewrite Hread.
  cbv beta iota zeta. rewrite Hencode, detect_objects_loaded. reflexivity.
Qed.

Lemma batch_validate_empty_file_witness :
  batch_validate (env := Fixture.env) (Some Fixture.yolo) [Scenario.empty_file]
                 Fixture.world0 =
  (inr [Failed "empty.png"
          (str (env := Fixture.env)
             (HTTPException 500
                ("Detection failed: " +:+
                 str (env := Fixture.env)
                   (HTTPException 400 "Either image_data or image_url required"))))],
   advanced Fixture.world0 1 []).
Proof.
  apply (@batch_validate_empty_file Fixture.env Fixture.yolo Scenario.empty_file
           Fixture.world0); reflexivity.
Defined.

(** ** alpr_detection *)

(** The plate-recognition stub never fails and never looks at the image or
    the model: it reads the clock twice and answers one record with plate
    ABC-1234 and confidence 0.95, echoing the requested region; two
    requests for the same region get the same answer. *)
Theorem alpr_detection_stub `{Environment} (request : ALPRRequest) (w : World) :
  (exists record time_ms,
      alpr_detection request w =
        (inr {| plates := [record]; alpr_processing_time_ms := time_ms |},
         advanced w 2 []) /\
      plate record = "ABC-1234" /\
      plate_confidence record = 95 # 100 /\
      plate_region record = region request) /\
  (forall image_data image_url,
      alpr_detection (mkALPRRequest image_data image_url (region request)) w =
      alpr_detection request w).
Proof.
  split.
  - eexists _, _. split.
    + unfold alpr_detection, bind, get_time, ret, advanced. cbn.
      rewrite app_nil_r.
      replace (clock_reads w + 2)%nat with (S (S (clock_reads w))) by lia.
      reflexivity.
    + repeat split; reflexivity.
  - intros image_data image_url. reflexivity.
Qed.

(** ** load_model and startup_event *)

(** After a successful start-up a model is loaded, the one the constructor
    built and [to] moved to the device: the health probe reports healthy
    and [detect_objects] does not answer status 503 any more. *)
Theorem startup_event_success `{Environment} `{Loader} (model model' : option YOLO) :
  startup_event model = (inr tt, model') ->
  (exists m0 m,
      YOLO_load YOLO_WEIGHTS = inr m0 /\ YOLO_to m0 DEVICE = inr m /\
      model' = Some m) /\
  (forall now, status (health_check model' now) = "healthy" /\
               model_loaded (health_check model' now) = true) /\
  (forall request w detail,
      (detect_objects model' request w).1 <> inl (HTTPException 503 detail)).
Proof.
  unfold startup_event, load_model.
  destruct (YOLO_load YOLO_WEIGHTS) as [e | m0] eqn:Hload; [discriminate |].
  destruct (YOLO_to m0 DEVICE) as [e | m] eqn:Hto; [discriminate |].
  intros [= <-]. split; [| split].
  - exists m0, m. repeat split; assumption || reflexivity.
  - intros now. split; reflexivity.
  - intros request w detail. rewrite detect_objects_loaded.
    destruct (get_image request) as [cause | img_array]; [discriminate |].
    cbn zeta.
    destruct (predict m img_array (conf_floor request) (nms_iou request));
      discriminate.
Qed.

Lemma startup_event_success_witness :
  status (health_check (env := Fixture.env) (Some Fixture.yolo) 0) = "healthy".
Proof.
  destruct (@startup_event_success Fixture.env Scenario.loader_ok None
              (Some Fixture.yolo) eq_refl) as (_ & Hhealth & _).
  apply Hhealth.
Defined.

(** A failed start-up raises the library's exception again as it is.  If
    the weights could not be loaded the global handle is left as it was;
    if only the move to the device failed, the handle has already been
    assigned and stays set. *)
Theorem startup_event_failure `{Environment} `{Loader} (model model' : option YOLO)
    (e : Exception) :
  startup_event model = (inl e, model') ->
  (YOLO_load YOLO_WEIGHTS = inl e /\ model' = model) \/
  (exists m, YOLO_load YOLO_WEIGHTS = inr m /\ YOLO_to m DEVICE = inl e /\
             model' = Some m).
Proof.
  unfold startup_event, load_model.
  destruct (YOLO_load YOLO_WEIGHTS) as [e0 | m0] eqn:Hload.
  - intros [= <- <-]. left. split; reflexivity.
  - destruct (YOLO_to m0 DEVICE) as [e1 | m] eqn:Hto; [| discriminate].
    intros [= <- <-]. right. exists m0. repeat split; assumption || reflexivity.
Qed.

Lemma startup_event_failure_witness :
  (@YOLO_load Scenario.loader_no_device (@YOLO_WEIGHTS Scenario.loader_no_device) =
     inl (Error "CUDA driver not found") /\
   Some Fixture.yolo = None) \/
  (exists m,
      @YOLO_load Scenario.loader_no_device (@YOLO_WEIGHTS Scenario.loader_no_device) =
        inr m /\
      @YOLO_to Scenario.loader_no_device m (@DEVICE Fixture.env) =
        inl (Error "CUDA driver not found") /\
      Some Fixture.yolo = Some m).
Proof.
  apply (@startup_event_failure Fixture.env Scenario.loader_no_device None
           (Some Fixture.yolo) (Error "CUDA driver not found")).
  reflexivity.
Defined.
